(** * Hamahang: the synchronisation, presence and voting core

    A shallow embedding of the client-side core of the Hamahang application
    (TypeScript): the count quantizer [lib/approximation.ts], the sync engine
    [lib/syncEngine.ts], the vote hook [hooks/useSloganVote.ts], the IP
    geolocation resolver [lib/ipGeolocate.ts] and the heartbeat of
    [lib/serverCrowdCounter.ts].

    Conventions.  A JavaScript [number] that holds a count or a time in
    milliseconds is an integer below 2^53, where every operation used here is
    exact; it is embedded as [Z], and the results the code can produce from
    such integers that are not integers (NaN, the infinities of a division by
    zero) are made explicit where the code can produce them.  A quotient that
    is rounded at once ([Math.round (raw / 10)]) is taken over [Q].  [null]
    and [undefined] are [None]. *)

From stdpp Require Import gmap strings.
From Stdlib Require Import ZArith QArith Qround Lia Ascii HexadecimalString Sorted.

Local Open Scope Z_scope.

(** ** lib/approximation.ts *)

Module Approximation.

(** [Math.round]: the nearest integer, a tie going to the larger one. *)
Definition Math_round (x : Q) : Z := Qfloor (x + (1 # 2)).

Definition approximateCount (raw : Z) : Z :=
  if raw <=? 0 then 0
  else if raw <=? 10 then 10
  else if raw <=? 50 then Math_round (inject_Z raw / 10) * 10
  else if raw <=? 200 then Math_round (inject_Z raw / 25) * 25
  else if raw <=? 500 then Math_round (inject_Z raw / 50) * 50
  else Math_round (inject_Z raw / 100) * 100.

(** The rule as the specification words it.  [round_half_up x n]: [n] is the
    integer nearest to [x], a half rounding up. *)
Definition round_half_up (x : Q) (n : Z) : Prop :=
  (inject_Z n - (1 # 2) <= x)%Q /\ (x < inject_Z n + (1 # 2))%Q.

Definition rounded_to (raw step out : Z) : Prop :=
  exists n, round_half_up (inject_Z raw / inject_Z step) n /\ out = n * step.

Definition bucket_rule (raw out : Z) : Prop :=
  (raw = 0 -> out = 0) /\
  (1 <= raw <= 10 -> out = 10) /\
  (11 <= raw <= 50 -> rounded_to raw 10 out) /\
  (51 <= raw <= 200 -> rounded_to raw 25 out) /\
  (201 <= raw <= 500 -> rounded_to raw 50 out) /\
  (500 < raw -> rounded_to raw 100 out).

(** The granularity of the bucket [raw] falls in. *)
Definition granularity (raw : Z) : Z :=
  if raw <=? 50 then 10
  else if raw <=? 200 then 25
  else if raw <=? 500 then 50
  else 100.

(** *** Rounding *)

Lemma Math_round_div (raw : Z) (k : positive) :
  Math_round (inject_Z raw / inject_Z (Z.pos k)) = (2 * raw + Z.pos k) / (2 * Z.pos k).
Proof.
  unfold Math_round, Qfloor, Qplus, Qdiv, Qmult, Qinv; simpl.
  f_equal; lia.
Qed.

Lemma Math_round_half_up (raw : Z) (k : positive) :
  round_half_up (inject_Z raw / inject_Z (Z.pos k))
                (Math_round (inject_Z raw / inject_Z (Z.pos k))).
Proof.
  rewrite Math_round_div.
  set (n := (2 * raw + Z.pos k) / (2 * Z.pos k)).
  assert (Hn : 2 * Z.pos k * n <= 2 * raw + Z.pos k < 2 * Z.pos k * (n + 1)).
  { pose proof (Z.mul_div_le (2 * raw + Z.pos k) (2 * Z.pos k)).
    pose proof (Z.mul_succ_div_gt (2 * raw + Z.pos k) (2 * Z.pos k)).
    subst n; lia. }
  unfold round_half_up, Qle, Qlt, Qminus, Qplus, Qopp, Qdiv, Qmult, Qinv; simpl.
  split; nia.
Qed.

(** The specification's rounding determines its result. *)
Lemma round_half_up_unique (x : Q) (n m : Z) :
  round_half_up x n -> round_half_up x m -> n = m.
Proof.
  intros [Hn1 Hn2] [Hm1 Hm2].
  assert (H1 : (inject_Z n - (1 # 2) < inject_Z m + (1 # 2))%Q)
    by (eapply Qle_lt_trans; eassumption).
  assert (H2 : (inject_Z m - (1 # 2) < inject_Z n + (1 # 2))%Q)
    by (eapply Qle_lt_trans; eassumption).
  unfold Qlt, Qminus, Qplus, Qopp in H1, H2; simpl in H1, H2.
  lia.
Qed.

Lemma approximateCount_rounded (raw : Z) (k : positive) :
  rounded_to raw (Z.pos k) (Math_round (inject_Z raw / inject_Z (Z.pos k)) * Z.pos k).
Proof. eexists; split; [apply Math_round_half_up | reflexivity]. Qed.

(** [approximateCount] without the rationals. *)
Lemma approximateCount_div (raw : Z) :
  approximateCount raw =
    if raw <=? 0 then 0
    else if raw <=? 10 then 10
    else if raw <=? 50 then (2 * raw + 10) / 20 * 10
    else if raw <=? 200 then (2 * raw + 25) / 50 * 25
    else if raw <=? 500 then (2 * raw + 50) / 100 * 50
    else (2 * raw + 100) / 200 * 100.
Proof.
  unfold approximateCount.
  change (10%Q) with (inject_Z 10); change (25%Q) with (inject_Z 25).
  change (50%Q) with (inject_Z 50); change (100%Q) with (inject_Z 100).
  rewrite !Math_round_div. reflexivity.
Qed.

(** Case analysis on the comparisons of the goal, and the two bounds that
    define each integer quotient in it. *)
Ltac case_leb :=
  repeat match goal with
         | |- context [?x <=? ?y] => destruct (Z.leb_spec x y); try lia
         end.

Ltac div_bounds :=
  repeat match goal with
         | |- context [?a / ?b] =>
             let q := fresh "q" in
             pose proof (Z.mul_div_le a b ltac:(lia));
             pose proof (Z.mul_succ_div_gt a b ltac:(lia));
             set (q := a / b) in *; clearbody q
         end.

(** In each bucket the result stays between the bucket's ends. *)
Lemma approximateCount_bounds (raw : Z) :
  (raw <= 0 -> approximateCount raw = 0) /\
  (1 <= raw <= 10 -> approximateCount raw = 10) /\
  (11 <= raw <= 50 -> 10 <= approximateCount raw <= 50) /\
  (51 <= raw <= 200 -> 50 <= approximateCount raw <= 200) /\
  (201 <= raw <= 500 -> 200 <= approximateCount raw <= 500) /\
  (500 < raw -> 500 <= approximateCount raw).
Proof.
  rewrite approximateCount_div.
  repeat split; intros; case_leb; div_bounds; lia.
Qed.

(** Inside one bucket the result does not decrease. *)
Lemma bucket_monotone (a b k : Z) :
  0 < k -> a <= b -> (2 * a + k) / (2 * k) * k <= (2 * b + k) / (2 * k) * k.
Proof.
  intros Hk Hab.
  apply Z.mul_le_mono_nonneg_r; [lia |].
  apply Z.div_le_mono; lia.
Qed.

Lemma approximateCount_satisfies_rule (raw : Z) :
  bucket_rule raw (approximateCount raw).
Proof.
  unfold bucket_rule, approximateCount.
  change (10%Q) with (inject_Z 10); change (25%Q) with (inject_Z 25).
  change (50%Q) with (inject_Z 50); change (100%Q) with (inject_Z 100).
  repeat split; intros; case_leb; try reflexivity;
    apply approximateCount_rounded.
Qed.

Lemma rounded_to_unique (raw step o1 o2 : Z) :
  rounded_to raw step o1 -> rounded_to raw step o2 -> o1 = o2.
Proof.
  intros (n & Hn & ->) (m & Hm & ->).
  now rewrite (round_half_up_unique _ _ _ Hn Hm).
Qed.

(** On the non-negative integers the rule has one value. *)
Lemma bucket_rule_functional (raw o1 o2 : Z) :
  0 <= raw -> bucket_rule raw o1 -> bucket_rule raw o2 -> o1 = o2.
Proof.
  intros Hraw (A0 & A1 & A2 & A3 & A4 & A5) (B0 & B1 & B2 & B3 & B4 & B5).
  assert (Hcase : raw = 0 \/ 1 <= raw <= 10 \/ 11 <= raw <= 50 \/
                  51 <= raw <= 200 \/ 201 <= raw <= 500 \/ 500 < raw) by lia.
  destruct Hcase as [H | [H | [H | [H | [H | H]]]]].
  - now rewrite A0, B0.
  - now rewrite A1, B1.
  - eapply rounded_to_unique; eauto.
  - eapply rounded_to_unique; eauto.
  - eapply rounded_to_unique; eauto.
  - eapply rounded_to_unique; eauto.
Qed.

(** C1.  For every non-negative integer [raw], [approximateCount raw] is the
    value the bucket rule gives, the rule read in order: 0 for 0; 10 on
    [1,10]; raw/10 rounded half up, times 10, on [11,50]; raw/25 rounded,
    times 25, on [51,200]; raw/50 rounded, times 50, on [201,500]; raw/100
    rounded, times 100, above 500.  In particular 0, 7, 23, 47, 120, 430 and
    650 give 0, 10, 20, 50, 125, 450 and 700. *)
Theorem approximateCount_bucket_rule :
  (forall raw out, 0 <= raw -> bucket_rule raw out <-> out = approximateCount raw) /\
  approximateCount 0 = 0 /\ approximateCount 7 = 10 /\
  approximateCount 23 = 20 /\ approximateCount 47 = 50 /\
  approximateCount 120 = 125 /\ approximateCount 430 = 450 /\
  approximateCount 650 = 700.
Proof.
  split; [| repeat split; vm_compute; reflexivity].
  intros raw out Hraw; split.
  - intros Hrule.
    apply (bucket_rule_functional raw); auto using approximateCount_satisfies_rule.
  - intros ->. apply approximateCount_satisfies_rule.
Qed.

Lemma approximateCount_bucket_rule_witness :
  0 <= 120 /\ (bucket_rule 120 125 <-> 125 = approximateCount 120).
Proof.
  split; [lia |].
  apply (proj1 approximateCount_bucket_rule 120 125); lia.
Defined.

(** C2.  [approximateCount] does not decrease: [a <= b] gives
    [approximateCount a <= approximateCount b] on the non-negative integers;
    and its value is a multiple of the granularity of the bucket of its
    argument (10 up to 50, 25 on 51..200, 50 on 201..500, 100 above). *)
Theorem approximateCount_monotone_granular :
  (forall a b, 0 <= a -> a <= b -> approximateCount a <= approximateCount b) /\
  (forall raw, 0 <= raw -> (granularity raw | approximateCount raw)).
Proof.
  split.
  - intros a b Ha Hab.
    destruct (approximateCount_bounds a) as (A0 & A1 & A2 & A3 & A4 & A5).
    destruct (approximateCount_bounds b) as (B0 & B1 & B2 & B3 & B4 & B5).
    assert (Hsame :
      (11 <= a /\ b <= 50) \/ (51 <= a /\ b <= 200) \/
      (201 <= a /\ b <= 500) \/ (500 < a) \/
      (a <= 0) \/ (a <= 10 /\ 1 <= a) \/
      (a <= 50 /\ 50 < b) \/ (a <= 200 /\ 200 < b) \/ (a <= 500 /\ 500 < b))
      by lia.
    destruct Hsame as [H | [H | [H | [H | H]]]].
    1-4: rewrite !approximateCount_div; case_leb.
    + apply (bucket_monotone a b 10); lia.
    + apply (bucket_monotone a b 25); lia.
    + apply (bucket_monotone a b 50); lia.
    + apply (bucket_monotone a b 100); lia.
    + lia.
  - intros raw Hraw. unfold granularity.
    rewrite approximateCount_div; case_leb.
    all: try (now exists 0); try (now exists 1); apply Z.divide_factor_r.
Qed.

Lemma approximateCount_monotone_granular_witness :
  approximateCount 50 <= approximateCount 51 /\ (granularity 120 | approximateCount 120).
Proof.
  split.
  - apply (proj1 approximateCount_monotone_granular 50 51); lia.
  - apply (proj2 approximateCount_monotone_granular 120); lia.
Defined.

(** *** What the quantizer hides *)

(** A value of [approximateCount] is a fixed point of it: quantizing twice
    changes nothing. *)
Theorem approximateCount_idempotent (raw : Z) :
  approximateCount (approximateCount raw) = approximateCount raw.
Proof.
  rewrite (approximateCount_div raw). case_leb; try reflexivity.
  all: div_bounds; rewrite approximateCount_div; case_leb; div_bounds; lia.
Qed.

(** From 11 on the displayed count is off by at most half the granularity
    of the bucket. *)
Theorem approximateCount_error (raw : Z) :
  11 <= raw -> 2 * Z.abs (approximateCount raw - raw) <= granularity raw.
Proof.
  intros Hraw. unfold granularity. rewrite approximateCount_div.
  case_leb; div_bounds; lia.
Qed.

Lemma approximateCount_error_witness :
  2 * Z.abs (approximateCount 137 - 137) <= granularity 137.
Proof. apply (approximateCount_error 137). lia. Defined.

(** Zero is displayed for no device only; one device or more shows 10 at
    least. *)
Theorem approximateCount_zero (raw : Z) :
  (approximateCount raw = 0 <-> raw <= 0) /\ (1 <= raw -> 10 <= approximateCount raw).
Proof.
  destruct (approximateCount_bounds raw) as (A0 & A1 & A2 & A3 & A4 & A5).
  assert (Hcase : raw <= 0 \/ 1 <= raw <= 10 \/ 11 <= raw <= 50 \/
                  51 <= raw <= 200 \/ 201 <= raw <= 500 \/ 500 < raw) by lia.
  destruct Hcase as [H | [H | [H | [H | [H | H]]]]];
    [pose proof (A0 H) | pose proof (A1 H) | pose proof (A2 H)
     | pose proof (A3 H) | pose proof (A4 H) | pose proof (A5 H)]; lia.
Qed.

(** Order is kept on all the integers. *)
Lemma approximateCount_le (a b : Z) :
  a <= b -> approximateCount a <= approximateCount b.
Proof.
  intros Hab.
  destruct (approximateCount_bounds a) as (A0 & A1 & A2 & A3 & A4 & A5).
  destruct (approximateCount_bounds b) as (B0 & B1 & B2 & B3 & B4 & B5).
  assert (Hsame :
    (11 <= a /\ b <= 50) \/ (51 <= a /\ b <= 200) \/
    (201 <= a /\ b <= 500) \/ (500 < a) \/
    (a <= 0) \/ (a <= 10 /\ 1 <= a) \/
    (a <= 50 /\ 50 < b) \/ (a <= 200 /\ 200 < b) \/ (a <= 500 /\ 500 < b))
    by lia.
  destruct Hsame as [H | [H | [H | [H | H]]]].
  1-4: rewrite !approximateCount_div; case_leb.
  - apply (bucket_monotone a b 10); lia.
  - apply (bucket_monotone a b 25); lia.
  - apply (bucket_monotone a b 50); lia.
  - apply (bucket_monotone a b 100); lia.
  - lia.
Qed.

(** The least count displayed like [raw]: the lower end of the run of counts
    that share its value. *)
Definition bucket_start (raw : Z) : Z :=
  if raw <=? 14 then 1
  else if raw <=? 44 then (2 * raw + 10) / 20 * 10 - 5
  else if raw <=? 62 then 45
  else if raw <=? 187 then (2 * raw + 25) / 50 * 25 - 12
  else if raw <=? 224 then 188
  else if raw <=? 474 then (2 * raw + 50) / 100 * 50 - 25
  else if raw <=? 549 then 475
  else (2 * raw + 100) / 200 * 100 - 50.

Lemma bucket_start_same (raw : Z) :
  1 <= raw ->
  1 <= bucket_start raw <= raw /\
  approximateCount (bucket_start raw) = approximateCount raw /\
  approximateCount (bucket_start raw + 9) = approximateCount raw.
Proof.
  intros Hraw. unfold bucket_start.
  rewrite (approximateCount_div raw).
  case_leb; div_bounds; (split; [lia |]);
    rewrite !approximateCount_div; split; case_leb; div_bounds; lia.
Qed.

(** Every displayed value stands for at least ten consecutive raw counts:
    around each count of one or more there are ten counts in a row, all
    displayed alike. *)
Theorem approximateCount_ten_alike (raw : Z) :
  1 <= raw ->
  exists lo, 1 <= lo <= raw /\ raw <= lo + 9 /\
             forall x, lo <= x <= lo + 9 -> approximateCount x = approximateCount raw.
Proof.
  intros Hraw.
  destruct (bucket_start_same raw Hraw) as (Hstart & Hlow & Hhigh).
  pose proof approximateCount_le as Hmono.
  exists (Z.max (bucket_start raw) (raw - 9)).
  split; [lia |]. split; [lia |]. intros x Hx.
  assert (Hlo : approximateCount (bucket_start raw) <= approximateCount x)
    by (apply Hmono; lia).
  assert (Hhi : approximateCount x <= approximateCount raw).
  { destruct (Z.le_gt_cases x raw) as [Hle | Hgt].
    - apply Hmono; lia.
    - rewrite <- Hhigh. apply Hmono; lia. }
  lia.
Qed.

Lemma approximateCount_ten_alike_witness :
  exists lo, 1 <= lo <= 23 /\ 23 <= lo + 9 /\
             forall x, lo <= x <= lo + 9 -> approximateCount x = approximateCount 23.
Proof. apply (approximateCount_ten_alike 23). lia. Defined.

End Approximation.

(** ** JavaScript numbers and strings *)

Module JS.

(** A [number] whose finite values are taken in [A]: the integers for
    milliseconds and counts, the rationals for coordinates.  There is one zero
    (the sign of zero is not modelled; every zero the code divides by is the
    positive one). *)
Inductive number {A : Type} : Type :=
| NaN
| NegInfinity
| Finite (x : A)
| Infinity.
Arguments number : clear implicits.

Definition isNaN {A} (n : number A) : bool :=
  match n with NaN => true | _ => false end.

(** [a - b] *)
Definition sub (a b : number Z) : number Z :=
  match a, b with
  | NaN, _ | _, NaN => NaN
  | Finite x, Finite y => Finite (x - y)
  | Infinity, Infinity | NegInfinity, NegInfinity => NaN
  | Infinity, _ | _, NegInfinity => Infinity
  | NegInfinity, _ | _, Infinity => NegInfinity
  end.

(** [a >= b]: false as soon as one side is NaN. *)
Definition ge (a b : number Z) : bool :=
  match a, b with
  | NaN, _ | _, NaN => false
  | Finite x, Finite y => y <=? x
  | Infinity, _ | _, NegInfinity => true
  | _, _ => false
  end.

(** The sign a quotient by the integer [b] gives to an infinite result. *)
Definition signed_infinity (positive : bool) : number Z :=
  if positive then Infinity else NegInfinity.

(** [Math.floor (a / b)] for an integer divisor: the floor of the exact
    quotient, and what IEEE division gives at a zero divisor. *)
Definition floor_div (a : number Z) (b : Z) : number Z :=
  match a with
  | NaN => NaN
  | Finite x =>
      if b =? 0 then
        (if x =? 0 then NaN else signed_infinity (0 <? x))
      else Finite (x / b)
  | Infinity => signed_infinity (0 <=? b)
  | NegInfinity => signed_infinity (b <? 0)
  end.

(** [Math.ceil (a / b)] for an integer divisor. *)
Definition ceil_div (a : number Z) (b : Z) : number Z :=
  match a with
  | NaN => NaN
  | Finite x =>
      if b =? 0 then
        (if x =? 0 then NaN else signed_infinity (0 <? x))
      else Finite (- ((- x) / b))
  | Infinity => signed_infinity (0 <=? b)
  | NegInfinity => signed_infinity (b <? 0)
  end.

(** [a % b] for an integer divisor: the remainder has the sign of [a]. *)
Definition rem (a : number Z) (b : Z) : number Z :=
  match a with
  | Finite x => if b =? 0 then NaN else Finite (Z.rem x b)
  | _ => NaN
  end.

(** [Math.max a b] and [Math.min a b] *)
Definition max (a b : number Z) : number Z :=
  match a, b with
  | NaN, _ | _, NaN => NaN
  | Infinity, _ | _, Infinity => Infinity
  | NegInfinity, c | c, NegInfinity => c
  | Finite x, Finite y => Finite (Z.max x y)
  end.

Definition min (a b : number Z) : number Z :=
  match a, b with
  | NaN, _ | _, NaN => NaN
  | NegInfinity, _ | _, NegInfinity => NegInfinity
  | Infinity, c | c, Infinity => c
  | Finite x, Finite y => Finite (Z.min x y)
  end.

(** Truthiness of an optional integer field: [undefined] and 0 are falsy. *)
Definition truthy (v : option Z) : bool :=
  match v with
  | Some x => negb (x =? 0)
  | None => false
  end.

(** [s.replace (c, d)] for one-character strings: only the first occurrence
    is replaced. *)
Fixpoint replace (c d : Ascii.ascii) (s : string) : string :=
  match s with
  | EmptyString => EmptyString
  | String a rest =>
      if Ascii.eqb a c then String d rest else String a (replace c d rest)
  end.

(** [s.endsWith (suffix)] *)
Definition endsWith (s suffix : string) : bool :=
  let n := String.length s in
  let m := String.length suffix in
  (m <=? n)%nat && String.eqb (String.substring (n - m) m s) suffix.

End JS.

(** ** lib/syncEngine.ts *)

Module SyncEngine.
Import JS.

(** [Slang] of lib/supabase.ts. *)
Record Slang := {
  id : string;
  text : string;
  repeat_count : Z;
  seconds_per : Z;
  order_index : Z;
  is_active : bool;
  admin_override : bool;
  vote_score : Z;
  created_at : string;
  updated_at : string;
}.

(** [ServerSlangResponse].  [slang] is typed as always present, but both
    functions are written for a response without one; [receivedAt] is
    optional.  The server's own [currentRepeat] and [secondsRemaining] are not
    read by this module. *)
Record ServerSlangResponse := {
  slang : option Slang;
  serverCurrentRepeat : Z;
  serverSecondsRemaining : Z;
  totalDuration : Z;
  elapsedInSlang : Z;
  startedAt : string;
  receivedAt : option Z;
}.

(** [CurrentSlangState], the result of [calculateLocalState]. *)
Record CurrentSlangState := {
  state_slang : Slang;
  currentRepeat : number Z;
  secondsRemaining : number Z;
  state_totalDuration : Z;
  state_elapsedInSlang : number Z;
}.

Section WithDate.

(** [new Date (s).getTime ()]: the time a timestamp string denotes, in
    milliseconds, or NaN when it denotes none. *)
Variable Date_getTime : string -> number Z.

(** [if (receivedAt)] is a test of truthiness: it sends an absent stamp and
    a stamp of 0 to the [startedAt] branch; in the first branch [receivedAt]
    is a non-zero number. *)
Definition calculateLocalState (serverResponse : ServerSlangResponse) (now : Z)
  : option CurrentSlangState :=
  match slang serverResponse with
  | None => None
  | Some slang =>
      let elapsed :=
        if truthy (receivedAt serverResponse) then
          let timeSinceReceived := now - default 0 (receivedAt serverResponse) in
          Finite (elapsedInSlang serverResponse + timeSinceReceived)
        else
          let normalizedTimestamp := replace " "%char "T"%char (startedAt serverResponse) in
          let normalizedTimestamp :=
            if endsWith normalizedTimestamp "+00"
            then (normalizedTimestamp +:+ ":00")%string
            else normalizedTimestamp in
          let startTime := Date_getTime normalizedTimestamp in
          sub (Finite now) startTime in
      if ge elapsed (Finite (totalDuration serverResponse)) then None
      else
        let secondsPerMs := seconds_per slang * 1000 in
        let repeatIndex := floor_div elapsed secondsPerMs in
        let currentRepeat := sub (Finite (repeat_count slang)) repeatIndex in
        let positionInRepeat := rem elapsed secondsPerMs in
        let msRemaining := sub (Finite secondsPerMs) positionInRepeat in
        let secondsRemaining := ceil_div msRemaining 1000 in
        Some {| state_slang := slang;
                currentRepeat := max (Finite 1) currentRepeat;
                secondsRemaining := min secondsRemaining (Finite (seconds_per slang));
                state_totalDuration := totalDuration serverResponse;
                state_elapsedInSlang := elapsed |}
  end.

Definition isSlangExpired (serverResponse : ServerSlangResponse) (now : Z) : bool :=
  let elapsed :=
    if truthy (receivedAt serverResponse) then
      let timeSinceReceived := now - default 0 (receivedAt serverResponse) in
      Finite (elapsedInSlang serverResponse + timeSinceReceived)
    else
      let normalizedTimestamp := replace " "%char "T"%char (startedAt serverResponse) in
      let normalizedTimestamp :=
        if endsWith normalizedTimestamp "+00"
        then (normalizedTimestamp +:+ ":00")%string
        else normalizedTimestamp in
      let startTime := Date_getTime normalizedTimestamp in
      sub (Finite now) startTime in
  ge elapsed (Finite (totalDuration serverResponse)).

End WithDate.

(** The state the specification derives from the elapsed time: the repeat
    counts down from [repeat_count], one repeat every [seconds_per] seconds,
    and the seconds left in the repeat are rounded up.  The position in the
    repeat is the remainder of the code's [%], which has the sign of the
    elapsed time; for a time that is not negative it is the modulo of
    arithmetic ([derived_secondsRemaining_mod] below). *)
Definition ceiling (a b : Z) : Z := - ((- a) / b).

Definition derived_currentRepeat (s : Slang) (elapsed : Z) : Z :=
  Z.max 1 (repeat_count s - elapsed / (seconds_per s * 1000)).

Definition derived_secondsRemaining (s : Slang) (elapsed : Z) : Z :=
  Z.min (seconds_per s)
        (ceiling (seconds_per s * 1000 - Z.rem elapsed (seconds_per s * 1000)) 1000).

(** The slogan and the snapshot of the specification's example: three
    repeats of five seconds, received at [T0] with nothing elapsed. *)
Definition example_slang : Slang :=
  {| id := "s1"; text := "slogan"; repeat_count := 3; seconds_per := 5;
     order_index := 0; is_active := true; admin_override := false;
     vote_score := 0; created_at := "2026-01-01 00:00:00+00";
     updated_at := "2026-01-01 00:00:00+00" |}.

Definition example_response (elapsedAtSnapshot : Z) (received : option Z)
  : ServerSlangResponse :=
  {| slang := Some example_slang; serverCurrentRepeat := 3;
     serverSecondsRemaining := 5; totalDuration := 15000;
     elapsedInSlang := elapsedAtSnapshot;
     startedAt := "2026-01-01 00:00:00+00"; receivedAt := received |}.

(** *** The elapsed time *)

(** With a received-at stamp that the code's test accepts, the elapsed time
    is the server's plus the local time since the receipt. *)
Lemma truthy_Some (t : Z) : t <> 0 -> truthy (Some t) = true.
Proof. intros Ht; simpl. now apply negb_true_iff, Z.eqb_neq. Qed.

Lemma ge_Finite (a b : Z) : ge (Finite a) (Finite b) = negb (a <? b).
Proof. simpl. destruct (Z.leb_spec b a), (Z.ltb_spec a b); simpl; lia || reflexivity. Qed.

(** For a time that has not run backwards the remainder of [%] is the
    modulo of arithmetic. *)
Lemma derived_secondsRemaining_mod (s : Slang) (elapsed : Z) :
  0 <= elapsed -> 0 < seconds_per s ->
  derived_secondsRemaining s elapsed =
    Z.min (seconds_per s)
          (ceiling (seconds_per s * 1000 - elapsed mod (seconds_per s * 1000)) 1000).
Proof.
  intros He Hs. unfold derived_secondsRemaining.
  rewrite Z.rem_mod_nonneg by lia. reflexivity.
Qed.

Lemma calculateLocalState_elapsed (Date_getTime : string -> number Z)
    (r : ServerSlangResponse) (s : Slang) (t now : Z) :
  slang r = Some s -> receivedAt r = Some t -> t <> 0 -> seconds_per s <> 0 ->
  calculateLocalState Date_getTime r now =
    let elapsed := elapsedInSlang r + (now - t) in
    if elapsed <? totalDuration r then
      Some {| state_slang := s;
              currentRepeat := Finite (derived_currentRepeat s elapsed);
              secondsRemaining := Finite (derived_secondsRemaining s elapsed);
              state_totalDuration := totalDuration r;
              state_elapsedInSlang := Finite elapsed |}
    else None.
Proof.
  intros Hslang Hrecv Ht Hs. unfold calculateLocalState.
  rewrite Hslang, Hrecv, truthy_Some by assumption. cbn [default].
  rewrite ge_Finite. cbv zeta.
  destruct (_ <? _); cbn [negb]; [| reflexivity].
  unfold floor_div, rem, ceil_div, derived_currentRepeat, derived_secondsRemaining, ceiling.
  assert (Hz : (seconds_per s * 1000 =? 0) = false) by (apply Z.eqb_neq; lia).
  rewrite Hz. cbn [sub max min Z.eqb]. rewrite Z.min_comm. reflexivity.
Qed.

(** C3, amended.  For a snapshot whose [receivedAt] is a non-zero number (the
    code's test [if (receivedAt)] takes 0 for absent), with its slogan and a
    non-zero [seconds_per]: the elapsed time is
    [elapsedInSlang + (now - receivedAt)]; below [totalDuration] the result has
    [currentRepeat = max 1 (repeat_count - floor (elapsed / (seconds_per * 1000)))]
    and [secondsRemaining = min seconds_per (ceil ((seconds_per * 1000 -
    elapsed % (seconds_per * 1000)) / 1000))]; from [totalDuration] on it is
    null.  With three repeats of five seconds received at [T0 <> 0] with
    nothing elapsed: (3, 5) at [T0 + 500], (3, 1) at [T0 + 4600], (2, 5) at
    [T0 + 5100], null at [T0 + 15000]. *)
Theorem calculateLocalState_receivedAt (Date_getTime : string -> number Z) :
  (forall (r : ServerSlangResponse) (s : Slang) (t now : Z),
      slang r = Some s -> receivedAt r = Some t -> t <> 0 -> seconds_per s <> 0 ->
      let elapsed := elapsedInSlang r + (now - t) in
      (elapsed < totalDuration r ->
       exists st, calculateLocalState Date_getTime r now = Some st /\
                  currentRepeat st = Finite (derived_currentRepeat s elapsed) /\
                  secondsRemaining st = Finite (derived_secondsRemaining s elapsed) /\
                  state_elapsedInSlang st = Finite elapsed) /\
      (totalDuration r <= elapsed -> calculateLocalState Date_getTime r now = None)) /\
  (forall T0 : Z, T0 <> 0 ->
      let at_ms (ms : Z) :=
        option_map (fun st => (currentRepeat st, secondsRemaining st))
                   (calculateLocalState Date_getTime (example_response 0 (Some T0)) (T0 + ms)) in
      at_ms 500 = Some (Finite 3, Finite 5) /\
      at_ms 4600 = Some (Finite 3, Finite 1) /\
      at_ms 5100 = Some (Finite 2, Finite 5) /\
      at_ms 15000 = None).
Proof.
  split.
  - intros r s t now Hslang Hrecv Ht Hs elapsed.
    rewrite (calculateLocalState_elapsed _ r s t now) by assumption.
    fold elapsed. cbv zeta. split; intros H.
    + apply Z.ltb_lt in H. rewrite H. eexists; repeat split.
    + apply Z.ltb_ge in H. now rewrite H.
  - intros T0 HT0 at_ms. subst at_ms. cbv beta.
    rewrite !(calculateLocalState_elapsed _ _ example_slang T0) by (reflexivity || assumption || discriminate).
    cbn [example_response elapsedInSlang totalDuration].
    replace (0 + (T0 + 500 - T0)) with 500 by lia.
    replace (0 + (T0 + 4600 - T0)) with 4600 by lia.
    replace (0 + (T0 + 5100 - T0)) with 5100 by lia.
    replace (0 + (T0 + 15000 - T0)) with 15000 by lia.
    repeat split.
Qed.

Lemma calculateLocalState_receivedAt_witness :
  slang (example_response 0 (Some 1000)) = Some example_slang /\
  receivedAt (example_response 0 (Some 1000)) = Some 1000 /\
  (exists st,
      calculateLocalState (fun _ => NaN) (example_response 0 (Some 1000)) 5600 = Some st /\
      currentRepeat st = Finite (derived_currentRepeat example_slang 4600) /\
      secondsRemaining st = Finite (derived_secondsRemaining example_slang 4600) /\
      state_elapsedInSlang st = Finite 4600) /\
  calculateLocalState (fun _ => NaN) (example_response 0 (Some 1000)) 16000 = None.
Proof.
  split; [reflexivity |]. split; [reflexivity |]. split.
  - apply (proj1 (calculateLocalState_receivedAt (fun _ => NaN))
             (example_response 0 (Some 1000)) example_slang 1000 5600);
      try reflexivity; try discriminate.
  - apply (proj1 (calculateLocalState_receivedAt (fun _ => NaN))
             (example_response 0 (Some 1000)) example_slang 1000 16000);
      try reflexivity; discriminate.
Defined.

(** C3 as stated fails for a snapshot whose [receivedAt] is set to 0: the
    test [if (receivedAt)] sends it down the [startedAt] path, which never
    reads [elapsedInSlang].  The claim gives repeat 3 at 500 ms with nothing
    elapsed at the snapshot and repeat 2 with 5000 ms elapsed; whatever the
    date parser answers, the code returns one result for both. *)
Lemma calculateLocalState_receivedAt_zero :
  ~ exists Date_getTime : string -> number Z,
      (exists st, calculateLocalState Date_getTime (example_response 0 (Some 0)) 500 = Some st /\
                  currentRepeat st = Finite (derived_currentRepeat example_slang (0 + (500 - 0)))) /\
      (exists st, calculateLocalState Date_getTime (example_response 5000 (Some 0)) 500 = Some st /\
                  currentRepeat st = Finite (derived_currentRepeat example_slang (5000 + (500 - 0)))).
Proof.
  intros (p & (st & Hst & Hrep) & (st' & Hst' & Hrep')).
  change (calculateLocalState p (example_response 5000 (Some 0)) 500)
    with (calculateLocalState p (example_response 0 (Some 0)) 500) in Hst'.
  rewrite Hst in Hst'. injection Hst' as <-.
  rewrite Hrep in Hrep'. vm_compute in Hrep'. discriminate.
Qed.

(** *** The range of the displayed state *)

Lemma ceiling_bounds (a : Z) :
  1000 * (ceiling a 1000 - 1) < a <= 1000 * ceiling a 1000.
Proof.
  unfold ceiling.
  pose proof (Z.mul_div_le (- a) 1000 ltac:(lia)).
  pose proof (Z.mul_succ_div_gt (- a) 1000 ltac:(lia)).
  lia.
Qed.

Lemma derived_in_range (s : Slang) (elapsed : Z) :
  1 <= repeat_count s -> 1 <= seconds_per s ->
  0 <= elapsed < repeat_count s * seconds_per s * 1000 ->
  1 <= derived_currentRepeat s elapsed <= repeat_count s /\
  1 <= derived_secondsRemaining s elapsed <= seconds_per s.
Proof.
  intros Hr Hs He. unfold derived_currentRepeat, derived_secondsRemaining.
  set (m := seconds_per s * 1000).
  assert (Hm : 0 < m) by (subst m; lia).
  assert (Hq : 0 <= elapsed / m < repeat_count s).
  { split; [apply Z.div_pos; lia |].
    apply Z.div_lt_upper_bound; [lia |]. subst m. nia. }
  assert (Hrem : 0 <= Z.rem elapsed m < m).
  { rewrite Z.rem_mod_nonneg by lia. apply Z.mod_pos_bound; lia. }
  pose proof (ceiling_bounds (m - Z.rem elapsed m)).
  subst m. split; lia.
Qed.

(** C4, amended.  For a snapshot with consistent fields, when
    [calculateLocalState] returns a state whose elapsed time is a
    non-negative number, [currentRepeat] lies in [1, repeat_count] and
    [secondsRemaining] in [1, seconds_per]. *)
Theorem calculateLocalState_in_range (Date_getTime : string -> number Z)
    (r : ServerSlangResponse) (s : Slang) (now elapsed : Z) (st : CurrentSlangState) :
  slang r = Some s ->
  totalDuration r = repeat_count s * seconds_per s * 1000 ->
  0 <= elapsedInSlang r -> 1 <= repeat_count s -> 1 <= seconds_per s ->
  calculateLocalState Date_getTime r now = Some st ->
  state_elapsedInSlang st = Finite elapsed -> 0 <= elapsed ->
  exists c q : Z,
    currentRepeat st = Finite c /\ 1 <= c <= repeat_count s /\
    secondsRemaining st = Finite q /\ 1 <= q <= seconds_per s.
Proof.
  intros Hslang Htotal _ Hr Hs Hst Hel He.
  unfold calculateLocalState in Hst. rewrite Hslang in Hst.
  match type of Hst with context [ge ?e _] => set (el := e) in * end.
  destruct (ge el _) eqn:Hge; [discriminate |].
  injection Hst as <-. cbn [state_elapsedInSlang] in Hel. rewrite Hel in *.
  rewrite ge_Finite in Hge. apply negb_false_iff, Z.ltb_lt in Hge.
  destruct (derived_in_range s elapsed Hr Hs ltac:(lia)) as [Hc Hq].
  exists (derived_currentRepeat s elapsed), (derived_secondsRemaining s elapsed).
  cbn [currentRepeat secondsRemaining]. unfold floor_div, rem, ceil_div.
  assert (Hz : (seconds_per s * 1000 =? 0) = false) by (apply Z.eqb_neq; lia).
  rewrite Hz. cbn [sub max min Z.eqb].
  rewrite Z.min_comm. repeat split; tauto.
Qed.

Lemma calculateLocalState_in_range_witness :
  exists c q : Z,
    currentRepeat {| state_slang := example_slang; currentRepeat := Finite 3;
                     secondsRemaining := Finite 1; state_totalDuration := 15000;
                     state_elapsedInSlang := Finite 4600 |} = Finite c /\
    1 <= c <= 3 /\ Finite 1 = Finite q /\ 1 <= q <= 5.
Proof.
  apply (calculateLocalState_in_range (fun _ => NaN)
           (example_response 0 (Some 1000)) example_slang 5600 4600);
    try reflexivity; cbn; lia.
Defined.

(** With a local clock that does not run backwards the elapsed time is
    non-negative, and the state is in range. *)
Corollary calculateLocalState_in_range_monotonic (Date_getTime : string -> number Z)
    (r : ServerSlangResponse) (s : Slang) (t now : Z) (st : CurrentSlangState) :
  slang r = Some s -> receivedAt r = Some t -> t <> 0 -> t <= now ->
  totalDuration r = repeat_count s * seconds_per s * 1000 ->
  0 <= elapsedInSlang r -> 1 <= repeat_count s -> 1 <= seconds_per s ->
  calculateLocalState Date_getTime r now = Some st ->
  exists c q : Z,
    currentRepeat st = Finite c /\ 1 <= c <= repeat_count s /\
    secondsRemaining st = Finite q /\ 1 <= q <= seconds_per s.
Proof.
  intros Hslang Hrecv Ht Hnow Htotal He Hr Hs Hst.
  rewrite (calculateLocalState_elapsed _ r s t now) in Hst by (assumption || lia).
  cbv zeta in Hst. destruct (_ <? _) eqn:Hlt; [| discriminate].
  apply Z.ltb_lt in Hlt. injection Hst as <-. cbn [currentRepeat secondsRemaining].
  destruct (derived_in_range s (elapsedInSlang r + (now - t)) Hr Hs ltac:(lia)).
  eauto 10.
Qed.

(** C4 as stated fails when [now] lies before the receipt: half a second
    before it, a snapshot of three repeats of five seconds shows repeat 4. *)
Lemma calculateLocalState_clock_backwards :
  totalDuration (example_response 0 (Some 10000)) = 3 * 5 * 1000 /\
  0 <= elapsedInSlang (example_response 0 (Some 10000)) /\
  repeat_count example_slang = 3 /\ seconds_per example_slang = 5 /\
  exists st,
    (forall Date_getTime,
        calculateLocalState Date_getTime (example_response 0 (Some 10000)) 9500 = Some st) /\
    currentRepeat st = Finite 4 /\ ~ 4 <= repeat_count example_slang.
Proof.
  split; [reflexivity |]. split; [cbn; lia |].
  split; [reflexivity |]. split; [reflexivity |].
  eexists. split; [intros p; vm_compute; reflexivity |].
  split; [reflexivity | cbn; lia].
Qed.

(** *** Expiry *)

(** C10.  For a response with its slogan and every [now],
    [calculateLocalState] returns null exactly when [isSlangExpired] returns
    true, on the received-at path and on the [startedAt] path alike. *)
Theorem calculateLocalState_null_iff_expired (Date_getTime : string -> number Z)
    (r : ServerSlangResponse) (s : Slang) (now : Z) :
  slang r = Some s ->
  calculateLocalState Date_getTime r now = None <-> isSlangExpired Date_getTime r now = true.
Proof.
  intros Hslang. unfold calculateLocalState, isSlangExpired. rewrite Hslang.
  cbv zeta. destruct (ge _ _); split; (reflexivity || discriminate).
Qed.

Lemma calculateLocalState_null_iff_expired_witness :
  calculateLocalState (fun _ => Finite 1000) (example_response 0 None) 16000 = None <->
  isSlangExpired (fun _ => Finite 1000) (example_response 0 None) 16000 = true.
Proof.
  apply (calculateLocalState_null_iff_expired (fun _ => Finite 1000)
           (example_response 0 None) example_slang 16000).
  reflexivity.
Defined.

(** *** The countdown as time passes *)

Lemma ceiling_add (a y : Z) : ceiling (1000 * a + y) 1000 = a + ceiling y 1000.
Proof.
  unfold ceiling.
  replace (- (1000 * a + y)) with (- a * 1000 + - y) by lia.
  rewrite Z.div_add_l by lia. lia.
Qed.

Lemma ceiling_le (a b : Z) : a <= b -> ceiling a 1000 <= ceiling b 1000.
Proof.
  intros Hab. unfold ceiling.
  pose proof (Z.div_le_mono (- b) (- a) 1000 ltac:(lia) ltac:(lia)). lia.
Qed.

(** What a returned state holds, for a positive [seconds_per] and an elapsed
    time that is a number. *)
Lemma calculateLocalState_fields (Date_getTime : string -> number Z)
    (r : ServerSlangResponse) (s : Slang) (now elapsed : Z) (st : CurrentSlangState) :
  slang r = Some s -> 1 <= seconds_per s ->
  calculateLocalState Date_getTime r now = Some st ->
  state_elapsedInSlang st = Finite elapsed ->
  elapsed < totalDuration r /\
  currentRepeat st = Finite (derived_currentRepeat s elapsed) /\
  secondsRemaining st = Finite (derived_secondsRemaining s elapsed).
Proof.
  intros Hslang Hs Hst Hel.
  unfold calculateLocalState in Hst. rewrite Hslang in Hst.
  match type of Hst with context [ge ?e _] => set (el := e) in * end.
  destruct (ge el _) eqn:Hge; [discriminate |].
  injection Hst as <-. cbn [state_elapsedInSlang] in Hel. rewrite Hel in *.
  rewrite ge_Finite in Hge. apply negb_false_iff, Z.ltb_lt in Hge.
  split; [exact Hge |].
  cbn [currentRepeat secondsRemaining]. unfold floor_div, rem, ceil_div.
  assert (Hz : (seconds_per s * 1000 =? 0) = false) by (apply Z.eqb_neq; lia).
  rewrite Hz. cbn [sub max min Z.eqb].
  rewrite Z.min_comm. split; reflexivity.
Qed.

(** The two displayed numbers together tell the time left of the whole
    slogan: the repeats still to come, at [seconds_per] seconds each, plus the
    seconds left in this one, are the milliseconds left, rounded up to a
    second. *)
Theorem calculateLocalState_time_left (Date_getTime : string -> number Z)
    (r : ServerSlangResponse) (s : Slang) (now elapsed : Z) (st : CurrentSlangState) :
  slang r = Some s ->
  totalDuration r = repeat_count s * seconds_per s * 1000 ->
  1 <= seconds_per s ->
  calculateLocalState Date_getTime r now = Some st ->
  state_elapsedInSlang st = Finite elapsed -> 0 <= elapsed ->
  exists c q : Z,
    currentRepeat st = Finite c /\ secondsRemaining st = Finite q /\
    (c - 1) * seconds_per s + q = ceiling (totalDuration r - elapsed) 1000.
Proof.
  intros Hslang Htotal Hs Hst Hel He.
  destruct (calculateLocalState_fields _ r s now elapsed st Hslang Hs Hst Hel)
    as (Hlt & Hc & Hq).
  exists (derived_currentRepeat s elapsed), (derived_secondsRemaining s elapsed).
  split; [exact Hc |]. split; [exact Hq |].
  assert (Hr : 1 <= repeat_count s) by nia.
  destruct (derived_in_range s elapsed Hr Hs ltac:(lia)) as [Hcr Hqr].
  unfold derived_currentRepeat, derived_secondsRemaining in *.
  set (m := seconds_per s * 1000) in *.
  assert (Hm : 0 < m) by (subst m; lia).
  rewrite Z.rem_mod_nonneg in * by lia.
  pose proof (Z.div_mod elapsed m ltac:(lia)) as Hdiv.
  pose proof (Z.mod_pos_bound elapsed m Hm) as Hmod.
  pose proof (ceiling_bounds (m - elapsed mod m)) as Hceil.
  assert (Hq' : elapsed / m < repeat_count s).
  { apply Z.div_lt_upper_bound; [lia |]. subst m. nia. }
  rewrite Z.max_r by lia. rewrite Z.min_r by (subst m; lia).
  replace (totalDuration r - elapsed)
    with (1000 * ((repeat_count s - elapsed / m - 1) * seconds_per s)
          + (m - elapsed mod m)) by (subst m; nia).
  rewrite ceiling_add. reflexivity.
Qed.

Lemma calculateLocalState_time_left_witness :
  exists c q : Z,
    currentRepeat {| state_slang := example_slang; currentRepeat := Finite 2;
                     secondsRemaining := Finite 5; state_totalDuration := 15000;
                     state_elapsedInSlang := Finite 5100 |} = Finite c /\
    Finite 5 = Finite q /\
    (c - 1) * 5 + q = ceiling (15000 - 5100) 1000.
Proof.
  apply (calculateLocalState_time_left (fun _ => NaN)
           (example_response 0 (Some 1000)) example_slang 6100 5100);
    try reflexivity; cbn; lia.
Defined.

(** The repeat number never goes up while the local clock goes forward. *)
Theorem calculateLocalState_repeat_decreases (Date_getTime : string -> number Z)
    (r : ServerSlangResponse) (s : Slang) (t now now' : Z)
    (st st' : CurrentSlangState) :
  slang r = Some s -> receivedAt r = Some t -> t <> 0 -> 1 <= seconds_per s ->
  now <= now' ->
  calculateLocalState Date_getTime r now = Some st ->
  calculateLocalState Date_getTime r now' = Some st' ->
  exists c c' : Z,
    currentRepeat st = Finite c /\ currentRepeat st' = Finite c' /\ c' <= c.
Proof.
  intros Hslang Hrecv Ht Hs Hnow Hst Hst'.
  rewrite (calculateLocalState_elapsed _ r s t) in Hst, Hst' by (assumption || lia).
  cbv zeta in Hst, Hst'.
  destruct (_ <? _) in Hst; [| discriminate].
  destruct (_ <? _) in Hst'; [| discriminate].
  injection Hst as <-. injection Hst' as <-. cbn [currentRepeat].
  do 2 eexists. split; [reflexivity |]. split; [reflexivity |].
  unfold derived_currentRepeat.
  pose proof (Z.div_le_mono (elapsedInSlang r + (now - t)) (elapsedInSlang r + (now' - t))
                (seconds_per s * 1000) ltac:(lia) ltac:(lia)).
  lia.
Qed.

Lemma calculateLocalState_repeat_decreases_witness :
  exists c c' : Z,
    Finite 3 = Finite c /\ Finite 2 = Finite c' /\ c' <= c.
Proof.
  apply (calculateLocalState_repeat_decreases (fun _ => NaN)
           (example_response 0 (Some 1000)) example_slang 1000 1500 6100
           {| state_slang := example_slang; currentRepeat := Finite 3;
              secondsRemaining := Finite 5; state_totalDuration := 15000;
              state_elapsedInSlang := Finite 500 |}
           {| state_slang := example_slang; currentRepeat := Finite 2;
              secondsRemaining := Finite 5; state_totalDuration := 15000;
              state_elapsedInSlang := Finite 5100 |});
    try reflexivity; try discriminate; cbn; lia.
Defined.

Lemma ge_sub_monotone (now now' : Z) (start total : number Z) :
  now <= now' ->
  ge (sub (Finite now) start) total = true ->
  ge (sub (Finite now') start) total = true.
Proof.
  intros Hnow. destruct start, total; cbn; try (intros; assumption || reflexivity).
  rewrite !Z.leb_le. lia.
Qed.

(** Expiry is for good: a snapshot that has expired stays expired at every
    later time, on the received-at path and on the [startedAt] path. *)
Theorem isSlangExpired_stays (Date_getTime : string -> number Z)
    (r : ServerSlangResponse) (now now' : Z) :
  now <= now' ->
  isSlangExpired Date_getTime r now = true ->
  isSlangExpired Date_getTime r now' = true.
Proof.
  intros Hnow. unfold isSlangExpired. cbv zeta.
  destruct (truthy (receivedAt r)).
  - rewrite !ge_Finite, !negb_true_iff, !Z.ltb_ge. lia.
  - apply ge_sub_monotone. exact Hnow.
Qed.

Lemma isSlangExpired_stays_witness :
  isSlangExpired (fun _ => Finite 0) (example_response 0 None) 20000 = true.
Proof.
  apply (isSlangExpired_stays (fun _ => Finite 0) (example_response 0 None) 15000 20000).
  - lia.
  - reflexivity.
Defined.

End SyncEngine.

(** ** hooks/useSyncedSlogan.ts *)

Module SyncedSlogan.
Import JS SyncEngine.

(** The refs and the state of the hook, and [requests], the number of
    [get_current_slang] calls it has issued. *)
Record Hook := {
  serverResponseRef : option ServerSlangResponse;
  isFetchingRef : bool;
  state : option CurrentSlangState;
  isLoading : bool;
  error : option string;
  requests : nat;
}.

(** How the awaited [get_current_slang] ends: it throws or answers with an
    error (by its message), or it answers with data, possibly none. *)
Inductive RpcOutcome :=
| Failed (message : string)
| Data (data : option ServerSlangResponse).

(** [fetchCurrentSlang] up to its [await]: nothing while a fetch is in
    flight. *)
Definition fetchCurrentSlang_begin (h : Hook) : Hook :=
  if isFetchingRef h then h
  else {| serverResponseRef := serverResponseRef h; isFetchingRef := true;
          state := state h; isLoading := isLoading h; error := None;
          requests := S (requests h) |}.

(** [fetchCurrentSlang] from its [await] on, the answer arriving at the
    local time [now]. *)
Definition fetchCurrentSlang_end (outcome : RpcOutcome) (now : Z) (h : Hook) : Hook :=
  match outcome with
  | Data (Some data) =>
      let response :=
        {| slang := slang data;
           serverCurrentRepeat := serverCurrentRepeat data;
           serverSecondsRemaining := serverSecondsRemaining data;
           totalDuration := totalDuration data;
           elapsedInSlang := elapsedInSlang data;
           startedAt := startedAt data;
           receivedAt := Some now |} in
      {| serverResponseRef := Some response; isFetchingRef := false;
         state := state h; isLoading := false; error := error h;
         requests := requests h |}
  | Data None =>
      {| serverResponseRef := None; isFetchingRef := false;
         state := state h; isLoading := false; error := error h;
         requests := requests h |}
  | Failed msg =>
      {| serverResponseRef := serverResponseRef h; isFetchingRef := false;
         state := state h; isLoading := false; error := Some msg;
         requests := requests h |}
  end.

Section WithDate.

Variable Date_getTime : string -> number Z.

(** [updateState], the tick of every 100 ms.  It reads the clock twice: once
    in [isSlangExpired] ([checked]), once in [calculateLocalState]
    ([computed]). *)
Definition updateState (checked computed : Z) (h : Hook) : Hook :=
  match serverResponseRef h with
  | None =>
      {| serverResponseRef := None; isFetchingRef := isFetchingRef h;
         state := None; isLoading := isLoading h; error := error h;
         requests := requests h |}
  | Some response =>
      if isSlangExpired Date_getTime response checked
      then fetchCurrentSlang_begin h
      else
        {| serverResponseRef := serverResponseRef h; isFetchingRef := isFetchingRef h;
           state := calculateLocalState Date_getTime response computed;
           isLoading := isLoading h; error := error h; requests := requests h |}
  end.

(** What happens to the hook between two answers of the server: ticks, and
    change notifications, which fetch again. *)
Inductive Event :=
| Tick (checked computed : Z)
| Changed.

Definition step (h : Hook) (e : Event) : Hook :=
  match e with
  | Tick checked computed => updateState checked computed h
  | Changed => fetchCurrentSlang_begin h
  end.

Definition run (h : Hook) (events : list Event) : Hook := fold_left step events h.

Lemma step_fetching (h : Hook) (e : Event) :
  isFetchingRef h = true ->
  isFetchingRef (step h e) = true /\ requests (step h e) = requests h.
Proof.
  intros Hf. destruct e as [checked computed |]; cbn [step].
  - unfold updateState. destruct (serverResponseRef h) as [response |];
      [| split; [exact Hf | reflexivity]].
    destruct (isSlangExpired _ _ _); [| split; [exact Hf | reflexivity]].
    unfold fetchCurrentSlang_begin. rewrite Hf. split; [exact Hf | reflexivity].
  - unfold fetchCurrentSlang_begin. rewrite Hf. split; [exact Hf | reflexivity].
Qed.

Lemma step_requests (h : Hook) (e : Event) :
  requests (step h e) = requests h \/
  isFetchingRef (step h e) = true /\ requests (step h e) = S (requests h).
Proof.
  destruct e as [checked computed |]; cbn [step].
  - unfold updateState. destruct (serverResponseRef h) as [response |];
      [| left; reflexivity].
    destruct (isSlangExpired _ _ _); [| left; reflexivity].
    unfold fetchCurrentSlang_begin.
    destruct (isFetchingRef h); [left | right; split]; reflexivity.
  - unfold fetchCurrentSlang_begin.
    destruct (isFetchingRef h); [left | right; split]; reflexivity.
Qed.

Lemma run_fetching (events : list Event) (h : Hook) :
  isFetchingRef h = true ->
  isFetchingRef (run h events) = true /\ requests (run h events) = requests h.
Proof.
  revert h. induction events as [| e events IH]; intros h Hf; [auto |].
  destruct (step_fetching h e Hf) as [Hf' Hr'].
  destruct (IH (step h e) Hf') as [Hf'' Hr''].
  change (run h (e :: events)) with (run (step h e) events).
  split; [exact Hf'' | congruence].
Qed.

(** One request at a time: however many ticks and change notifications come
    before the server answers, the hook issues at most one request, and none
    while one is in flight. *)
Theorem run_one_request (events : list Event) (h : Hook) :
  (requests (run h events) <= S (requests h))%nat /\
  (isFetchingRef h = true -> requests (run h events) = requests h).
Proof.
  split; [| intros Hf; now apply run_fetching].
  revert h. induction events as [| e events IH]; intros h; [cbn; lia |].
  change (run h (e :: events)) with (run (step h e) events).
  destruct (step_requests h e) as [Hsame | [Hf Hmore]].
  - specialize (IH (step h e)). lia.
  - destruct (run_fetching events (step h e) Hf) as [_ Hr]. lia.
Qed.

Lemma calculateLocalState_live (r : ServerSlangResponse) (s : Slang) (now : Z) :
  slang r = Some s -> isSlangExpired Date_getTime r now = false ->
  is_Some (calculateLocalState Date_getTime r now).
Proof.
  intros Hslang. unfold calculateLocalState, isSlangExpired. rewrite Hslang.
  cbv zeta. intros ->. eexists; reflexivity.
Qed.

(** A tick blanks the display only when there is no response, or when the
    snapshot expires between the two readings of the clock; it asks for no
    new snapshot in that tick. *)
Theorem updateState_blank (checked computed : Z) (h : Hook)
    (r : ServerSlangResponse) (s : Slang) :
  serverResponseRef h = Some r -> slang r = Some s ->
  is_Some (state h) ->
  state (updateState checked computed h) = None ->
  isSlangExpired Date_getTime r checked = false /\
  isSlangExpired Date_getTime r computed = true /\
  requests (updateState checked computed h) = requests h.
Proof.
  intros Hr Hslang Hstate. unfold updateState. rewrite Hr.
  destruct (isSlangExpired Date_getTime r checked) eqn:Hchecked.
  - unfold fetchCurrentSlang_begin. destruct (isFetchingRef h); cbn [state];
      intros Hnone; rewrite Hnone in Hstate; now destruct Hstate.
  - cbn [state requests]. intros Hnone. repeat split.
    destruct (isSlangExpired Date_getTime r computed) eqn:Hcomputed; [reflexivity |].
    destruct (calculateLocalState_live r s computed Hslang Hcomputed) as [st Hst].
    congruence.
Qed.

End WithDate.

(** A hook showing the example snapshot, received at 1000. *)
Definition example_hook : Hook :=
  {| serverResponseRef := Some (example_response 0 (Some 1000));
     isFetchingRef := false;
     state := calculateLocalState (fun _ => NaN) (example_response 0 (Some 1000)) 15900;
     isLoading := false; error := None; requests := 1 |}.

Lemma updateState_blank_witness :
  isSlangExpired (fun _ => NaN) (example_response 0 (Some 1000)) 15999 = false /\
  isSlangExpired (fun _ => NaN) (example_response 0 (Some 1000)) 16000 = true /\
  requests (updateState (fun _ => NaN) 15999 16000 example_hook) = requests example_hook.
Proof.
  apply (updateState_blank (fun _ => NaN) 15999 16000 example_hook
           (example_response 0 (Some 1000)) example_slang).
  - reflexivity.
  - reflexivity.
  - eexists; reflexivity.
  - reflexivity.
Defined.

End SyncedSlogan.

(** ** hooks/useSloganVote.ts *)

Module SloganVote.

Record VoteInfo := {
  score : Z;
  likes : Z;
  dislikes : Z;
  userVote : option Z;   (* +1, -1, or null *)
}.

(** The arguments of the [submit_vote] remote procedure. *)
Record SubmitVote := {
  p_slang_id : string;
  p_voter_id : string;
  p_vote : Z;
}.

(** How [await supabase.rpc (...)] ends: the promise rejects, or it resolves
    to [{ data, error }] ([error] by its message). *)
Inductive RpcOutcome :=
| Rejects
| Resolves (data : option string) (error : option string).

(** What a call of the asynchronous [vote] does, in order: state updates
    handed to [setVotes], the remote call it awaits, warnings on the console. *)
Inductive Task :=
| Done
| SetVotes (updater : gmap string VoteInfo -> gmap string VoteInfo) (next : Task)
| Rpc (args : SubmitVote) (next : RpcOutcome -> Task)
| Warn (next : Task).

(** [vote], as the callback created at a render that saw the map [votes] and
    with [voterIdRef.current] as given. *)
Definition vote (votes : gmap string VoteInfo) (voterIdRef : option string)
    (slangId : string) (value : Z) : Task :=
  match voterIdRef with
  | None | Some "" => Done
  | Some voterId =>
      let current := votes !! slangId in
      let currentUserVote := current ≫= userVote in
      let currentScore := default 0 (score <$> current) in
      let currentLikes := default 0 (likes <$> current) in
      let currentDislikes := default 0 (dislikes <$> current) in
      let isToggle := bool_decide (currentUserVote = Some value) in
      let newUserVote := if isToggle then None else Some value in
      let scoreDelta :=
        if isToggle then - value
        else match currentUserVote with
             | Some old => value - old
             | None => value
             end in
      let '(likesDelta, dislikesDelta) :=
        if isToggle then
          (if value =? 1 then (-1, 0) else (0, -1))
        else
          (if value =? 1
           then (1, if bool_decide (currentUserVote = Some (-1)) then -1 else 0)
           else (if bool_decide (currentUserVote = Some 1) then -1 else 0, 1)) in
      let rollback (prev : gmap string VoteInfo) :=
        <[slangId := {| score := currentScore; likes := currentLikes;
                        dislikes := currentDislikes; userVote := currentUserVote |}]> prev in
      SetVotes
        (fun prev =>
           <[slangId := {| score := currentScore + scoreDelta;
                           likes := currentLikes + likesDelta;
                           dislikes := currentDislikes + dislikesDelta;
                           userVote := newUserVote |}]> prev)
        (Rpc {| p_slang_id := slangId; p_voter_id := voterId;
                p_vote := if isToggle then 0 else value |}
           (fun outcome =>
              match outcome with
              | Resolves result None =>
                  if bool_decide (result = Some "rate_limited")
                  then SetVotes rollback Done
                  else Done
              | Resolves _ (Some _) | Rejects => Warn (SetVotes rollback Done)
              end))
  end.

(** What an observer sees of a task. *)
Inductive Event :=
| Updated (state : gmap string VoteInfo)
| Called (args : SubmitVote)
| Warned.

(** Running a task from the state [st]: [rpc] answers the remote calls, and
    while a call is awaited other callbacks may change the state ([during]). *)
Fixpoint run (rpc : SubmitVote -> RpcOutcome)
    (during : gmap string VoteInfo -> gmap string VoteInfo)
    (t : Task) (st : gmap string VoteInfo) : gmap string VoteInfo * list Event :=
  match t with
  | Done => (st, [])
  | SetVotes updater next =>
      let st' := updater st in
      let rest := run rpc during next st' in
      (rest.1, Updated st' :: rest.2)
  | Rpc args next =>
      let rest := run rpc during (next (rpc args)) (during st) in
      (rest.1, Called args :: rest.2)
  | Warn next =>
      let rest := run rpc during next st in
      (rest.1, Warned :: rest.2)
  end.

(** A remote call that throws, errors or is rate-limited. *)
Definition failed (o : RpcOutcome) : Prop :=
  match o with
  | Rejects => True
  | Resolves data error => is_Some error \/ data = Some "rate_limited"
  end.

(** The values [vote] captures before its optimistic update. *)
Definition captured (votes : gmap string VoteInfo) (slangId : string) : VoteInfo :=
  {| score := default 0 (score <$> votes !! slangId);
     likes := default 0 (likes <$> votes !! slangId);
     dislikes := default 0 (dislikes <$> votes !! slangId);
     userVote := votes !! slangId ≫= userVote |}.

(** The tally of the specification: likes, dislikes and the user's vote,
    0 for none. *)
Record VoteTally := {
  tally_likes : Z;
  tally_dislikes : Z;
  tally_userVote : Z;
}.

Definition tally_of (info : option VoteInfo) : VoteTally :=
  {| tally_likes := default 0 (likes <$> info);
     tally_dislikes := default 0 (dislikes <$> info);
     tally_userVote := default 0 (info ≫= userVote) |}.

(** The bucket of a direction, changed by [delta]. *)
Definition bump (direction delta : Z) (t : VoteTally) : VoteTally :=
  if direction =? 1 then
    {| tally_likes := tally_likes t + delta; tally_dislikes := tally_dislikes t;
       tally_userVote := tally_userVote t |}
  else
    {| tally_likes := tally_likes t; tally_dislikes := tally_dislikes t + delta;
       tally_userVote := tally_userVote t |}.

Definition with_userVote (v : Z) (t : VoteTally) : VoteTally :=
  {| tally_likes := tally_likes t; tally_dislikes := tally_dislikes t;
     tally_userVote := v |}.

(** The toggle semantics, in the specification's words. *)
Definition toggle (t : VoteTally) (direction : Z) : VoteTally :=
  let current := tally_userVote t in
  if current =? direction then with_userVote 0 (bump current (-1) t)
  else if current =? 0 then with_userVote direction (bump direction 1 t)
  else with_userVote direction (bump direction 1 (bump current (-1) t)).

(** *** The shape of a vote *)

(** The entry the optimistic update writes. *)
Definition optimistic (votes : gmap string VoteInfo) (slangId : string) (value : Z)
  : VoteInfo :=
  let old := captured votes slangId in
  let isToggle := bool_decide (userVote old = Some value) in
  {| score := score old +
              (if isToggle then - value
               else match userVote old with Some u => value - u | None => value end);
     likes := likes old +
              (if isToggle then (if value =? 1 then -1 else 0)
               else if value =? 1 then 1
               else if bool_decide (userVote old = Some 1) then -1 else 0);
     dislikes := dislikes old +
                 (if isToggle then (if value =? 1 then 0 else -1)
                  else if value =? 1
                  then (if bool_decide (userVote old = Some (-1)) then -1 else 0)
                  else 1);
     userVote := if isToggle then None else Some value |}.

(** What [vote] does once the remote call has ended. *)
Definition reconcile (votes : gmap string VoteInfo) (slangId : string)
    (outcome : RpcOutcome) : Task :=
  let rollback := SetVotes (fun prev => <[slangId := captured votes slangId]> prev) Done in
  match outcome with
  | Resolves result None =>
      if bool_decide (result = Some "rate_limited") then rollback else Done
  | Resolves _ (Some _) | Rejects => Warn rollback
  end.

Lemma vote_shape (votes : gmap string VoteInfo) (voterId slangId : string) (value : Z) :
  voterId <> "" ->
  vote votes (Some voterId) slangId value =
    SetVotes (fun prev => <[slangId := optimistic votes slangId value]> prev)
      (Rpc {| p_slang_id := slangId; p_voter_id := voterId;
              p_vote := if bool_decide (userVote (captured votes slangId) = Some value)
                        then 0 else value |}
           (reconcile votes slangId)).
Proof.
  intros Hvoter. destruct voterId as [| a voterId]; [congruence |].
  unfold vote, optimistic, reconcile, captured. cbn [score likes dislikes userVote].
  destruct (bool_decide (_ = Some value)), (value =? 1); reflexivity.
Qed.

Lemma vote_without_voterId (votes : gmap string VoteInfo) (slangId : string) (value : Z) :
  vote votes None slangId value = Done /\ vote votes (Some "") slangId value = Done.
Proof. split; reflexivity. Qed.

(** The state a failed reconciliation leaves. *)
Lemma run_reconcile_failed (rpc : SubmitVote -> RpcOutcome)
    (during : gmap string VoteInfo -> gmap string VoteInfo)
    (votes : gmap string VoteInfo) (slangId : string) (o : RpcOutcome)
    (st : gmap string VoteInfo) :
  failed o ->
  (run rpc during (reconcile votes slangId o) st).1 = <[slangId := captured votes slangId]> st.
Proof.
  unfold reconcile.
  destruct o as [| data [e |]]; cbn [failed run fst]; try reflexivity.
  intros [[e He] | ->]; [discriminate | reflexivity].
Qed.

(** The reconciliation makes no remote call of its own. *)
Lemma run_reconcile_no_call (rpc : SubmitVote -> RpcOutcome)
    (during : gmap string VoteInfo -> gmap string VoteInfo)
    (votes : gmap string VoteInfo) (slangId : string) (o : RpcOutcome)
    (st : gmap string VoteInfo) (args : SubmitVote) :
  ~ In (Called args) (run rpc during (reconcile votes slangId o) st).2.
Proof.
  unfold reconcile.
  destruct o as [| data [e |]]; [| | case_bool_decide]; cbn [run snd In];
    intuition discriminate.
Qed.

(** *** Toggle semantics *)

Ltac toggle_cases :=
  repeat case_bool_decide; try congruence;
  unfold with_userVote; cbn; try reflexivity; f_equal; lia.

Lemma optimistic_toggle (votes : gmap string VoteInfo) (slangId : string) (value : Z) :
  value = 1 \/ value = -1 ->
  -1 <= tally_userVote (tally_of (votes !! slangId)) <= 1 ->
  tally_of (Some (optimistic votes slangId value)) =
    toggle (tally_of (votes !! slangId)) value /\
  (if bool_decide (userVote (captured votes slangId) = Some value) then 0 else value) =
    tally_userVote (toggle (tally_of (votes !! slangId)) value).
Proof.
  intros Hvalue Hwf.
  unfold optimistic, captured, toggle, tally_of in *.
  cbn [score likes dislikes userVote tally_userVote tally_likes tally_dislikes
       fmap option_fmap option_map mbind option_bind default] in *.
  destruct (votes !! slangId) as [[sc l d [u |]] |]; cbn in *.
  - assert (Hu : u = -1 \/ u = 0 \/ u = 1) by lia.
    destruct Hvalue as [-> | ->], Hu as [-> | [-> | ->]]; split; toggle_cases.
  - destruct Hvalue as [-> | ->]; split; toggle_cases.
  - destruct Hvalue as [-> | ->]; split; reflexivity.
Qed.

(** A remote procedure that accepts every vote, and the tally the
    specification starts its example from. *)
Definition accepts (_ : SubmitVote) : RpcOutcome := Resolves (Some "ok") None.

Definition no_votes : gmap string VoteInfo :=
  {[ "s1" := {| score := 0; likes := 0; dislikes := 0; userVote := None |} ]}.

Definition after_vote (votes : gmap string VoteInfo) (value : Z) : gmap string VoteInfo :=
  (run accepts id (vote votes (Some "voter") "s1" value) votes).1.

(** C5, amended.  When the voter id is loaded ([vote] returns at once without
    it), for every item and direction in {+1, -1}: the first thing [vote] does
    is the local update, which writes the toggled tally (same direction: vote
    cleared and its bucket decremented; no vote: vote set and its bucket
    incremented; other direction: old bucket decremented, new one
    incremented, vote set); the remote call comes second and carries the
    resulting vote, 0 for a toggle-off.  From {0,0,0}, +1 gives {1,0,+1}, +1
    again {0,0,0}; from {1,0,+1}, -1 gives {0,1,-1}. *)
Theorem vote_toggle :
  (forall (votes : gmap string VoteInfo) (voterId slangId : string) (value : Z),
      voterId <> "" -> value = 1 \/ value = -1 ->
      -1 <= tally_userVote (tally_of (votes !! slangId)) <= 1 ->
      exists (info : VoteInfo) (next : RpcOutcome -> Task),
        vote votes (Some voterId) slangId value =
          SetVotes (fun prev => <[slangId := info]> prev)
            (Rpc {| p_slang_id := slangId; p_voter_id := voterId;
                    p_vote := tally_userVote (toggle (tally_of (votes !! slangId)) value) |}
                 next) /\
        tally_of (Some info) = toggle (tally_of (votes !! slangId)) value) /\
  tally_of (after_vote no_votes 1 !! "s1") =
    {| tally_likes := 1; tally_dislikes := 0; tally_userVote := 1 |} /\
  tally_of (after_vote (after_vote no_votes 1) 1 !! "s1") =
    {| tally_likes := 0; tally_dislikes := 0; tally_userVote := 0 |} /\
  tally_of (after_vote (after_vote no_votes 1) (-1) !! "s1") =
    {| tally_likes := 0; tally_dislikes := 1; tally_userVote := -1 |}.
Proof.
  split; [| repeat split; vm_compute; reflexivity].
  intros votes voterId slangId value Hvoter Hvalue Hwf.
  destruct (optimistic_toggle votes slangId value Hvalue Hwf) as [Htally Hcarried].
  exists (optimistic votes slangId value), (reconcile votes slangId).
  split; [| exact Htally].
  rewrite vote_shape by assumption. now rewrite Hcarried.
Qed.

Lemma vote_toggle_witness :
  exists (info : VoteInfo) (next : RpcOutcome -> Task),
    vote no_votes (Some "voter") "s1" 1 =
      SetVotes (fun prev => <["s1" := info]> prev)
        (Rpc {| p_slang_id := "s1"; p_voter_id := "voter";
                p_vote := tally_userVote (toggle (tally_of (no_votes !! "s1")) 1) |} next) /\
    tally_of (Some info) = toggle (tally_of (no_votes !! "s1")) 1.
Proof.
  apply (proj1 vote_toggle no_votes "voter" "s1" 1).
  - discriminate.
  - left; reflexivity.
  - vm_compute. split; discriminate.
Defined.

(** C5 as stated fails before the voter id is loaded: [vote] returns at its
    first line, the tally stays as it was and no remote call is made, where
    the toggle semantics gives {1,0,+1}. *)
Lemma vote_without_voter :
  vote no_votes None "s1" 1 = Done /\
  (forall rpc during, run rpc during (vote no_votes None "s1" 1) no_votes = (no_votes, [])) /\
  tally_of (no_votes !! "s1") <> toggle (tally_of (no_votes !! "s1")) 1.
Proof.
  split; [reflexivity |]. split; [reflexivity |].
  vm_compute. discriminate.
Qed.

(** *** Rollback *)

(** C6.  Whenever the remote call of a [vote] throws, returns an error or
    returns "rate_limited", the item's entry ends with the score, likes,
    dislikes and user vote that [vote] captured before its optimistic update,
    nothing of the update left in it; an entry that was in the map is
    restored as it was, and with no other change meanwhile so is the map. *)
Theorem vote_rollback (votes : gmap string VoteInfo) (voterIdRef : option string)
    (slangId : string) (value : Z) (rpc : SubmitVote -> RpcOutcome)
    (during : gmap string VoteInfo -> gmap string VoteInfo)
    (st : gmap string VoteInfo) (args : SubmitVote) :
  let result := run rpc during (vote votes voterIdRef slangId value) st in
  In (Called args) result.2 -> failed (rpc args) ->
  result.1 !! slangId = Some (captured votes slangId) /\
  (forall info, votes !! slangId = Some info -> result.1 !! slangId = Some info) /\
  (forall k, k <> slangId -> result.1 !! k = during (<[slangId := optimistic votes slangId value]> st) !! k) /\
  (forall info, votes !! slangId = Some info -> st = votes ->
                (forall m, during m = m) -> result.1 = votes).
Proof.
  intros result Hcalled Hfailed. subst result.
  destruct voterIdRef as [voterId |]; [| contradiction].
  destruct (decide (voterId = "")) as [-> | Hvoter]; [contradiction |].
  rewrite vote_shape in Hcalled |- * by assumption.
  cbn [run fst snd] in Hcalled |- *.
  destruct Hcalled as [Hupdated | [Hcall | Hlater]];
    [discriminate | | now apply run_reconcile_no_call in Hlater].
  injection Hcall as <-.
  rewrite run_reconcile_failed by assumption.
  assert (Hcaptured : forall info, votes !! slangId = Some info -> captured votes slangId = info).
  { intros [sc l d u] Hinfo. unfold captured. rewrite Hinfo. reflexivity. }
  repeat split.
  - apply lookup_insert_eq.
  - intros info Hinfo. rewrite lookup_insert_eq, (Hcaptured info Hinfo). reflexivity.
  - intros k Hk. rewrite lookup_insert_ne by congruence. reflexivity.
  - intros info Hinfo -> Hduring. rewrite Hduring, insert_insert_eq.
    rewrite (Hcaptured info Hinfo). now apply insert_id.
Qed.

Lemma vote_rollback_witness :
  (run (fun _ => Resolves (Some "rate_limited") None) id
       (vote no_votes (Some "voter") "s1" 1) no_votes).1 !! "s1" =
    Some (captured no_votes "s1").
Proof.
  refine (proj1 (vote_rollback no_votes (Some "voter") "s1" 1
                   (fun _ => Resolves (Some "rate_limited") None) id no_votes
                   {| p_slang_id := "s1"; p_voter_id := "voter"; p_vote := 1 |} _ _)).
  - rewrite vote_shape by discriminate. right; left; reflexivity.
  - right; reflexivity.
Defined.

(** *** What a vote changes, whatever the answer *)

(** The remote calls of a trace. *)
Definition calls (trace : list Event) : list SubmitVote :=
  omap (fun e => match e with Called args => Some args | _ => None end) trace.

Lemma reconcile_calls (rpc : SubmitVote -> RpcOutcome)
    (during : gmap string VoteInfo -> gmap string VoteInfo)
    (votes : gmap string VoteInfo) (slangId : string) (o : RpcOutcome)
    (st : gmap string VoteInfo) :
  calls (run rpc during (reconcile votes slangId o) st).2 = [] /\
  forall k, k <> slangId ->
            (run rpc during (reconcile votes slangId o) st).1 !! k = st !! k.
Proof.
  unfold reconcile.
  destruct o as [| data [e |]]; [| | case_bool_decide]; cbn [run fst snd];
    (split; [reflexivity |]); intros k Hk;
    rewrite ?lookup_insert_ne by congruence; reflexivity.
Qed.

(** With a voter id, a vote makes exactly one remote call, for its item and
    its voter and carrying 0 or the direction, whatever the call answers; and
    its own updates touch no entry but the item's. *)
Theorem vote_one_call (votes : gmap string VoteInfo) (voterId slangId : string)
    (value : Z) (rpc : SubmitVote -> RpcOutcome)
    (during : gmap string VoteInfo -> gmap string VoteInfo)
    (st : gmap string VoteInfo) :
  voterId <> "" ->
  let result := run rpc during (vote votes (Some voterId) slangId value) st in
  (exists carried,
      calls result.2 = [ {| p_slang_id := slangId; p_voter_id := voterId;
                            p_vote := carried |} ] /\
      (carried = 0 \/ carried = value)) /\
  (exists info, forall k, k <> slangId ->
      result.1 !! k = during (<[slangId := info]> st) !! k).
Proof.
  intros Hvoter result. subst result. rewrite vote_shape by assumption.
  cbn [run fst snd].
  match goal with
  | |- context [run rpc during (reconcile votes slangId ?o) ?s] =>
      destruct (reconcile_calls rpc during votes slangId o s) as [Hcalls Hframe]
  end.
  split.
  - eexists. split.
    + unfold calls in *. cbn [omap list_omap]. rewrite Hcalls. reflexivity.
    + case_bool_decide; auto.
  - eexists. intros k Hk. apply Hframe. exact Hk.
Qed.

Lemma vote_one_call_witness :
  exists carried,
    calls (run (fun _ => Rejects) id (vote no_votes (Some "voter") "s1" (-1)) no_votes).2 =
      [ {| p_slang_id := "s1"; p_voter_id := "voter"; p_vote := carried |} ] /\
    (carried = 0 \/ carried = -1).
Proof.
  refine (proj1 (vote_one_call no_votes "voter" "s1" (-1) (fun _ => Rejects) id no_votes _)).
  discriminate.
Defined.

(** A remote call that is accepted: no error, and not rate-limited. *)
Definition accepted (o : RpcOutcome) : Prop :=
  exists data, o = Resolves data None /\ data <> Some "rate_limited".

(** An accepted vote keeps its optimistic entry: the state ends as the
    update left it, with what other callbacks did during the call. *)
Theorem vote_accepted (votes : gmap string VoteInfo) (voterId slangId : string)
    (value : Z) (rpc : SubmitVote -> RpcOutcome)
    (during : gmap string VoteInfo -> gmap string VoteInfo)
    (st : gmap string VoteInfo) :
  voterId <> "" -> (forall args, accepted (rpc args)) ->
  exists info,
    (run rpc during (vote votes (Some voterId) slangId value) st).1 =
      during (<[slangId := info]> st) /\
    userVote info = (if bool_decide (votes !! slangId ≫= userVote = Some value)
                     then None else Some value).
Proof.
  intros Hvoter Haccepted. rewrite vote_shape by assumption.
  exists (optimistic votes slangId value). split; [| reflexivity].
  cbn [run fst]. unfold reconcile.
  match goal with |- context [rpc ?a] => destruct (Haccepted a) as (data & -> & Hdata) end.
  rewrite bool_decide_eq_false_2 by assumption. reflexivity.
Qed.

Lemma accepts_accepted (args : SubmitVote) : accepted (accepts args).
Proof. exists (Some "ok"). split; [reflexivity | discriminate]. Qed.

Lemma vote_accepted_witness :
  exists info,
    (run accepts id (vote no_votes (Some "voter") "s1" 1) no_votes).1 =
      id (<["s1" := info]> no_votes) /\
    userVote info = (if bool_decide (no_votes !! "s1" ≫= userVote = Some 1)
                     then None else Some 1).
Proof.
  apply (vote_accepted no_votes "voter" "s1" 1 accepts id no_votes).
  - discriminate.
  - exact accepts_accepted.
Defined.

(** The optimistic update keeps the score in step with the two tallies: the
    entry it writes has the same [score - (likes - dislikes)] as the entry it
    read. *)
Theorem vote_score_balance (votes : gmap string VoteInfo) (voterId slangId : string)
    (value : Z) :
  voterId <> "" -> value = 1 \/ value = -1 ->
  -1 <= tally_userVote (tally_of (votes !! slangId)) <= 1 ->
  exists (info : VoteInfo) (next : Task),
    vote votes (Some voterId) slangId value =
      SetVotes (fun prev => <[slangId := info]> prev) next /\
    score info - (likes info - dislikes info) =
      score (captured votes slangId)
      - (likes (captured votes slangId) - dislikes (captured votes slangId)).
Proof.
  intros Hvoter Hvalue Hwf. rewrite vote_shape by assumption.
  do 2 eexists. split; [reflexivity |].
  unfold optimistic, captured, tally_of in *.
  cbn [score likes dislikes userVote tally_userVote] in *.
  destruct (votes !! slangId) as [[sc l d [u |]] |]; cbn in *.
  - assert (Hu : u = -1 \/ u = 0 \/ u = 1) by lia.
    destruct Hvalue as [-> | ->], Hu as [-> | [-> | ->]];
      repeat case_bool_decide; try congruence; cbn; lia.
  - destruct Hvalue as [-> | ->]; repeat case_bool_decide; try congruence; cbn; lia.
  - destruct Hvalue as [-> | ->]; repeat case_bool_decide; try congruence; cbn; lia.
Qed.

Lemma vote_score_balance_witness :
  exists (info : VoteInfo) (next : Task),
    vote no_votes (Some "voter") "s1" 1 =
      SetVotes (fun prev => <["s1" := info]> prev) next /\
    score info - (likes info - dislikes info) =
      score (captured no_votes "s1")
      - (likes (captured no_votes "s1") - dislikes (captured no_votes "s1")).
Proof.
  apply (vote_score_balance no_votes "voter" "s1" 1).
  - discriminate.
  - left; reflexivity.
  - vm_compute. split; discriminate.
Defined.

(** Voting twice in the same direction on an item the user had not voted on,
    both votes accepted and the hook rendered in between, gives back the map
    as it was. *)
Theorem vote_twice_restores (votes : gmap string VoteInfo) (voterId slangId : string)
    (value : Z) (info : VoteInfo) (rpc : SubmitVote -> RpcOutcome) :
  voterId <> "" -> (forall args, accepted (rpc args)) ->
  votes !! slangId = Some info -> userVote info = None ->
  let once := (run rpc id (vote votes (Some voterId) slangId value) votes).1 in
  (run rpc id (vote once (Some voterId) slangId value) once).1 = votes.
Proof.
  intros Hvoter Haccepted Hinfo Hnone once.
  assert (Hrun : forall m,
             (run rpc id (vote m (Some voterId) slangId value) m).1 =
               <[slangId := optimistic m slangId value]> m).
  { intros m. rewrite vote_shape by assumption. cbn [run fst]. unfold reconcile.
    match goal with |- context [rpc ?a] => destruct (Haccepted a) as (data & -> & Hdata) end.
    rewrite bool_decide_eq_false_2 by assumption. reflexivity. }
  subst once. rewrite !Hrun, insert_insert_eq.
  apply insert_id. rewrite Hinfo. f_equal.
  unfold optimistic, captured.
  rewrite lookup_insert_eq, Hinfo.
  destruct info as [sc l d u]. cbn in Hnone. subst u.
  cbn [fmap option_fmap option_map mbind option_bind default
       score likes dislikes userVote].
  rewrite (bool_decide_eq_false_2 (None = Some value)) by discriminate.
  cbn [score likes dislikes userVote].
  rewrite (bool_decide_eq_true_2 (Some value = Some value)) by reflexivity.
  unfold id. repeat case_bool_decide; try discriminate.
  destruct (value =? 1); f_equal; lia.
Qed.

Lemma vote_twice_restores_witness :
  (run accepts id
       (vote (run accepts id (vote no_votes (Some "voter") "s1" 1) no_votes).1
             (Some "voter") "s1" 1)
       (run accepts id (vote no_votes (Some "voter") "s1" 1) no_votes).1).1 = no_votes.
Proof.
  apply (vote_twice_restores no_votes "voter" "s1" 1
           {| score := 0; likes := 0; dislikes := 0; userVote := None |} accepts).
  - discriminate.
  - exact accepts_accepted.
  - reflexivity.
  - reflexivity.
Defined.

(** *** fetchVotes *)

(** Rows of the queries: [slangs (id, vote_score)] and
    [slogan_votes (slang_id, vote)]. *)
Record ScoreRow := {
  row_id : string;
  vote_score : option Z;
}.

Record VoteRow := {
  slang_id : string;
  row_vote : Z;
}.

(** The first loop, over all the votes: the map of likes and the map of
    dislikes. *)
Definition countVotes (rows : list VoteRow) : gmap string Z * gmap string Z :=
  fold_left
    (fun maps v =>
       if row_vote v =? 1 then
         (<[slang_id v := default 0 (maps.1 !! slang_id v) + 1]> maps.1, maps.2)
       else if row_vote v =? -1 then
         (maps.1, <[slang_id v := default 0 (maps.2 !! slang_id v) + 1]> maps.2)
       else maps)
    rows (∅, ∅).

(** The second loop, over the slogans. *)
Definition scoreEntries (maps : gmap string Z * gmap string Z) (rows : list ScoreRow)
  : gmap string VoteInfo :=
  fold_left
    (fun map s =>
       <[row_id s := {| score := default 0 (vote_score s);
                        likes := default 0 (maps.1 !! row_id s);
                        dislikes := default 0 (maps.2 !! row_id s);
                        userVote := None |}]> map)
    rows ∅.

(** The third loop, over the user's own votes. *)
Definition userEntries (map : gmap string VoteInfo) (rows : list VoteRow)
  : gmap string VoteInfo :=
  fold_left
    (fun map v =>
       match map !! slang_id v with
       | Some existing =>
           <[slang_id v := {| score := score existing; likes := likes existing;
                              dislikes := dislikes existing;
                              userVote := Some (row_vote v) |}]> map
       | None =>
           <[slang_id v := {| score := 0; likes := 0; dislikes := 0;
                              userVote := Some (row_vote v) |}]> map
       end)
    rows map.

(** [fetchVotes]: the map it hands to [setVotes], or nothing when it returns
    at its first line.  A query that answers without data counts as an empty
    list. *)
Definition fetchVotes (voterIdRef : option string)
    (scoresRes : option (list ScoreRow))
    (allVotesRes userVotesRes : option (list VoteRow))
  : option (gmap string VoteInfo) :=
  match voterIdRef with
  | None | Some "" => None
  | Some _ =>
      let maps := countVotes (default [] allVotesRes) in
      let map := scoreEntries maps (default [] scoresRes) in
      Some (userEntries map (default [] userVotesRes))
  end.

(** The number of votes of one kind on one slogan. *)
Definition votes_cast (slangId : string) (kind : Z) (rows : list VoteRow) : Z :=
  Z.of_nat (length (filter (fun v => slang_id v = slangId /\ row_vote v = kind) rows)).

Lemma votes_cast_cons (slangId : string) (kind : Z) (v : VoteRow) (rows : list VoteRow) :
  votes_cast slangId kind (v :: rows) =
    (if bool_decide (slang_id v = slangId /\ row_vote v = kind) then 1 else 0)
    + votes_cast slangId kind rows.
Proof.
  unfold votes_cast. rewrite filter_cons.
  case_bool_decide as H; destruct (decide _) as [H' | H']; try tauto; cbn [length]; lia.
Qed.

Lemma countVotes_fold (rows : list VoteRow) (maps : gmap string Z * gmap string Z)
    (slangId : string) :
  let counted :=
    fold_left
      (fun maps v =>
         if row_vote v =? 1 then
           (<[slang_id v := default 0 (maps.1 !! slang_id v) + 1]> maps.1, maps.2)
         else if row_vote v =? -1 then
           (maps.1, <[slang_id v := default 0 (maps.2 !! slang_id v) + 1]> maps.2)
         else maps)
      rows maps in
  default 0 (counted.1 !! slangId) = default 0 (maps.1 !! slangId) + votes_cast slangId 1 rows /\
  default 0 (counted.2 !! slangId) = default 0 (maps.2 !! slangId) + votes_cast slangId (-1) rows.
Proof.
  revert maps. induction rows as [| v rows IH]; intros maps; cbn [fold_left].
  - unfold votes_cast. cbn. split; lia.
  - rewrite !votes_cast_cons.
    match goal with |- context [fold_left _ rows ?m] => destruct (IH m) as [IH1 IH2] end.
    cbv zeta in IH1, IH2 |- *. rewrite IH1, IH2. clear IH IH1 IH2.
    destruct (decide (slang_id v = slangId)) as [Hid | Hid];
      destruct (Z.eqb_spec (row_vote v) 1) as [H1 | H1];
      destruct (Z.eqb_spec (row_vote v) (-1)) as [H2 | H2];
      cbn [fst snd];
      rewrite ?Hid, ?lookup_insert_eq, ?lookup_insert_ne by congruence;
      cbn [default];
      unfold id; repeat case_bool_decide;
      first [lia | exfalso; intuition (congruence || lia)].
Qed.

Lemma countVotes_tally (rows : list VoteRow) (slangId : string) :
  default 0 ((countVotes rows).1 !! slangId) = votes_cast slangId 1 rows /\
  default 0 ((countVotes rows).2 !! slangId) = votes_cast slangId (-1) rows.
Proof.
  destruct (countVotes_fold rows (∅, ∅) slangId) as [H1 H2].
  unfold countVotes. cbv zeta in H1, H2. rewrite H1, H2.
  cbn [fst snd]. rewrite lookup_empty. cbn. split; lia.
Qed.

(** The score of the last row listing a slogan, and the vote of the user's
    last row on it. *)
Definition listed_score (slangId : string) (rows : list ScoreRow) : option Z :=
  (fun s => default 0 (vote_score s)) <$> last (filter (fun s => row_id s = slangId) rows).

Definition own_vote (slangId : string) (rows : list VoteRow) : option Z :=
  row_vote <$> last (filter (fun v => slang_id v = slangId) rows).

Lemma listed_score_cons (slangId : string) (s : ScoreRow) (rows : list ScoreRow) :
  listed_score slangId (s :: rows) =
    match listed_score slangId rows with
    | Some sc => Some sc
    | None => if bool_decide (row_id s = slangId) then Some (default 0 (vote_score s)) else None
    end.
Proof.
  unfold listed_score. rewrite filter_cons.
  case_bool_decide as H; destruct (decide _) as [H' | H']; try tauto.
  - rewrite last_cons. destruct (last _); reflexivity.
  - destruct (last _); reflexivity.
Qed.

Lemma own_vote_cons (slangId : string) (v : VoteRow) (rows : list VoteRow) :
  own_vote slangId (v :: rows) =
    match own_vote slangId rows with
    | Some u => Some u
    | None => if bool_decide (slang_id v = slangId) then Some (row_vote v) else None
    end.
Proof.
  unfold own_vote. rewrite filter_cons.
  case_bool_decide as H; destruct (decide _) as [H' | H']; try tauto.
  - rewrite last_cons. destruct (last _); reflexivity.
  - destruct (last _); reflexivity.
Qed.

Lemma scoreEntries_fold (maps : gmap string Z * gmap string Z) (rows : list ScoreRow)
    (map : gmap string VoteInfo) (slangId : string) :
  fold_left
    (fun map s =>
       <[row_id s := {| score := default 0 (vote_score s);
                        likes := default 0 (maps.1 !! row_id s);
                        dislikes := default 0 (maps.2 !! row_id s);
                        userVote := None |}]> map)
    rows map !! slangId =
  match listed_score slangId rows with
  | Some sc => Some {| score := sc; likes := default 0 (maps.1 !! slangId);
                       dislikes := default 0 (maps.2 !! slangId); userVote := None |}
  | None => map !! slangId
  end.
Proof.
  revert map. induction rows as [| s rows IH]; intros map; [reflexivity |].
  cbn [fold_left]. rewrite IH, listed_score_cons.
  destruct (listed_score slangId rows); [reflexivity |].
  case_bool_decide as H.
  - subst slangId. rewrite lookup_insert_eq. reflexivity.
  - rewrite lookup_insert_ne by congruence. reflexivity.
Qed.

(** An entry with the user's vote put in, or made for it. *)
Definition with_own_vote (existing : option VoteInfo) (u : Z) : VoteInfo :=
  match existing with
  | Some e => {| score := score e; likes := likes e; dislikes := dislikes e;
                 userVote := Some u |}
  | None => {| score := 0; likes := 0; dislikes := 0; userVote := Some u |}
  end.

Lemma userEntries_lookup (rows : list VoteRow) (map : gmap string VoteInfo)
    (slangId : string) :
  userEntries map rows !! slangId =
    match own_vote slangId rows with
    | Some u => Some (with_own_vote (map !! slangId) u)
    | None => map !! slangId
    end.
Proof.
  unfold userEntries. revert map.
  induction rows as [| v rows IH]; intros map; [reflexivity |].
  cbn [fold_left]. rewrite IH, own_vote_cons. clear IH.
  case_bool_decide as H.
  - subst slangId.
    destruct (map !! slang_id v) as [e |] eqn:He;
      rewrite lookup_insert_eq; destruct (own_vote _ rows); reflexivity.
  - destruct (map !! slang_id v) as [e |] eqn:He;
      rewrite lookup_insert_ne by congruence;
      destruct (own_vote _ rows); reflexivity.
Qed.

(** The map [fetchVotes] builds, entry by entry.  A slogan that the slogans
    query lists gets its score, the numbers of +1 and of -1 votes cast on it,
    and the user's last vote on it; a slogan known through the user's vote
    alone gets zeros whatever votes were cast on it; any other has no entry. *)
Theorem fetchVotes_lookup (voterId : string) (scoresRes : option (list ScoreRow))
    (allVotesRes userVotesRes : option (list VoteRow)) (slangId : string) :
  voterId <> "" ->
  exists map,
    fetchVotes (Some voterId) scoresRes allVotesRes userVotesRes = Some map /\
    map !! slangId =
      match listed_score slangId (default [] scoresRes),
            own_vote slangId (default [] userVotesRes) with
      | Some sc, own =>
          Some {| score := sc;
                  likes := votes_cast slangId 1 (default [] allVotesRes);
                  dislikes := votes_cast slangId (-1) (default [] allVotesRes);
                  userVote := own |}
      | None, Some u =>
          Some {| score := 0; likes := 0; dislikes := 0; userVote := Some u |}
      | None, None => None
      end.
Proof.
  intros Hvoter. destruct voterId as [| a voterId]; [congruence |].
  exists (userEntries (scoreEntries (countVotes (default [] allVotesRes))
                                    (default [] scoresRes))
                      (default [] userVotesRes)).
  split; [reflexivity |].
  rewrite userEntries_lookup. unfold scoreEntries. rewrite scoreEntries_fold.
  destruct (countVotes_tally (default [] allVotesRes) slangId) as [Hlikes Hdislikes].
  rewrite Hlikes, Hdislikes, lookup_empty.
  destruct (listed_score slangId _), (own_vote slangId _); reflexivity.
Qed.

Lemma fetchVotes_lookup_witness :
  exists map,
    fetchVotes (Some "voter")
      (Some [ {| row_id := "s1"; vote_score := Some 1 |} ])
      (Some [ {| slang_id := "s1"; row_vote := 1 |}; {| slang_id := "s1"; row_vote := -1 |};
              {| slang_id := "s1"; row_vote := 1 |}; {| slang_id := "s2"; row_vote := 1 |} ])
      (Some [ {| slang_id := "s2"; row_vote := 1 |} ]) = Some map /\
    map !! "s2" =
      match listed_score "s2" [ {| row_id := "s1"; vote_score := Some 1 |} ],
            own_vote "s2" [ {| slang_id := "s2"; row_vote := 1 |} ] with
      | Some sc, own =>
          Some {| score := sc;
                  likes := votes_cast "s2" 1
                    [ {| slang_id := "s1"; row_vote := 1 |}; {| slang_id := "s1"; row_vote := -1 |};
                      {| slang_id := "s1"; row_vote := 1 |}; {| slang_id := "s2"; row_vote := 1 |} ];
                  dislikes := votes_cast "s2" (-1)
                    [ {| slang_id := "s1"; row_vote := 1 |}; {| slang_id := "s1"; row_vote := -1 |};
                      {| slang_id := "s1"; row_vote := 1 |}; {| slang_id := "s2"; row_vote := 1 |} ];
                  userVote := own |}
      | None, Some u =>
          Some {| score := 0; likes := 0; dislikes := 0; userVote := Some u |}
      | None, None => None
      end.
Proof.
  apply (fetchVotes_lookup "voter"
           (Some [ {| row_id := "s1"; vote_score := Some 1 |} ])
           (Some [ {| slang_id := "s1"; row_vote := 1 |}; {| slang_id := "s1"; row_vote := -1 |};
                   {| slang_id := "s1"; row_vote := 1 |}; {| slang_id := "s2"; row_vote := 1 |} ])
           (Some [ {| slang_id := "s2"; row_vote := 1 |} ]) "s2").
  discriminate.
Defined.

(** Without a voter id [fetchVotes] sets nothing. *)
Lemma fetchVotes_without_voter (scoresRes : option (list ScoreRow))
    (allVotesRes userVotesRes : option (list VoteRow)) :
  fetchVotes None scoresRes allVotesRes userVotesRes = None /\
  fetchVotes (Some "") scoresRes allVotesRes userVotesRes = None.
Proof. split; reflexivity. Qed.

End SloganVote.

(** ** lib/ipGeolocate.ts *)

Module IpGeolocate.
Import JS.

(** A value read from a JSON body.  Of an object or an array only its
    conversion to a primitive is kept, which is all that [Number] sees. *)
Inductive JsValue :=
| JUndefined
| JNull
| JBool (b : bool)
| JNumber (n : number Q)
| JString (s : string)
| JObject (primitive : string).

(** [x === 0] *)
Definition is_zero (n : number Q) : bool :=
  match n with
  | Finite q => Qeq_bool q 0
  | _ => false
  end.

(** Truthiness, for [d.city || null] and [!lat]. *)
Definition truthy_number (n : number Q) : bool :=
  negb (isNaN n || is_zero n).

Definition truthy (v : JsValue) : bool :=
  match v with
  | JUndefined | JNull => false
  | JBool b => b
  | JNumber n => truthy_number n
  | JString s => negb (String.eqb s "")
  | JObject _ => true
  end.

(** [v || null] *)
Definition or_null (v : JsValue) : JsValue := if truthy v then v else JNull.

(** [d.key]: [undefined] for a property the object does not have. *)
Definition prop (d : gmap string JsValue) (key : string) : JsValue :=
  default JUndefined (d !! key).

(** [s.includes (c)] and [s.split (c)] for a one-character separator. *)
Fixpoint includes (s : string) (c : ascii) : bool :=
  match s with
  | EmptyString => false
  | String a rest => Ascii.eqb a c || includes rest c
  end.

Fixpoint split (s : string) (c : ascii) : list string :=
  match s with
  | EmptyString => [EmptyString]
  | String a rest =>
      if Ascii.eqb a c then EmptyString :: split rest c
      else match split rest c with
           | piece :: pieces => String a piece :: pieces
           | [] => [String a EmptyString]
           end
  end.

Record IPGeoResult := {
  lat : number Q;
  lng : number Q;
  city : JsValue;   (* string | null *)
}.

Record EndpointConfig := {
  url : string;
  parse : gmap string JsValue -> option IPGeoResult;
}.

Definition VERCEL_TIMEOUT_MS : Z := 3000.
Definition FALLBACK_TIMEOUT_MS : Z := 6000.
Definition CACHE_MAX_AGE_MS : Z := 5 * 60 * 1000.

(** How a [fetch] and the reading of its body end. *)
Inductive Body :=
| Malformed                               (* [res.json ()] rejects *)
| Null                                    (* [null]: reading a property of it throws *)
| Object (fields : gmap string JsValue).  (* an object; a primitive body reads as one without fields *)

Inductive FetchOutcome :=
| Rejected                                (* network failure, or aborted by the timeout *)
| Responded (ok : bool) (body : Body).

Section WithStringToNumber.

(** [Number (s)] for a string [s]. *)
Variable StringToNumber : string -> number Q.

Definition Number (v : JsValue) : number Q :=
  match v with
  | JUndefined => NaN
  | JNull => Finite 0%Q
  | JBool b => Finite (if b then 1%Q else 0%Q)
  | JNumber n => n
  | JString s => StringToNumber s
  | JObject primitive => StringToNumber primitive
  end.

Definition fallbackEndpoints : list EndpointConfig :=
  [ {| url := "https://get.geojs.io/v1/ip/geo.json";
       parse := fun d =>
         let lat := Number (prop d "latitude") in
         let lng := Number (prop d "longitude") in
         if isNaN lat || isNaN lng || is_zero lat then None
         else Some {| lat := lat; lng := lng; city := or_null (prop d "city") |} |};
    {| url := "https://freeipapi.com/api/json";
       parse := fun d =>
         let lat := Number (prop d "latitude") in
         let lng := Number (prop d "longitude") in
         if isNaN lat || isNaN lng || is_zero lat then None
         else Some {| lat := lat; lng := lng; city := or_null (prop d "cityName") |} |};
    {| url := "https://ipwhois.app/json/";
       parse := fun d =>
         let lat := Number (prop d "latitude") in
         let lng := Number (prop d "longitude") in
         if isNaN lat || isNaN lng || is_zero lat then None
         else Some {| lat := lat; lng := lng; city := or_null (prop d "city") |} |};
    {| url := "https://ipwho.is/";
       parse := fun d =>
         let lat := Number (prop d "latitude") in
         let lng := Number (prop d "longitude") in
         if isNaN lat || isNaN lng || is_zero lat then None
         else Some {| lat := lat; lng := lng; city := or_null (prop d "city") |} |};
    {| url := "https://ipinfo.io/json";
       parse := fun d =>
         match prop d "loc" with
         | JString loc =>
             if includes loc "," then
               let pieces := split loc "," in
               let la := from_option JString JUndefined (pieces !! 0%nat) in
               let lo := from_option JString JUndefined (pieces !! 1%nat) in
               let lat := Number la in
               let lng := Number lo in
               if isNaN lat || isNaN lng || is_zero lat then None
               else Some {| lat := lat; lng := lng; city := or_null (prop d "city") |}
             else None
         | _ => None
         end |} ].

(** [fetchVercelGeo], given how the request to /api/geo ends. *)
Definition fetchVercelGeo (response : FetchOutcome) : option IPGeoResult :=
  match response with
  | Responded true (Object data) =>
      let lat := Number (prop data "lat") in
      let lng := Number (prop data "lng") in
      if isNaN lat || isNaN lng || negb (truthy_number lat) then None
      else Some {| lat := lat; lng := lng; city := or_null (prop data "city") |}
  | _ => None
  end.

(** One endpoint's promise inside [Promise.any]: fulfilled with the parsed
    result, rejected ([None]) by a failed request, a status that is not ok, a
    body that cannot be read or a parse that returns null. *)
Definition attempt (endpoint : EndpointConfig) (response : FetchOutcome)
  : option IPGeoResult :=
  match response with
  | Responded true (Object data) => parse endpoint data
  | _ => None
  end.

(** [fetchExternalGeo]: [Promise.any] is fulfilled by the first endpoint to
    fulfil.  [responses] lists the answers that arrive before the timeout,
    by URL and in order of arrival; an endpoint that is not in it is aborted. *)
Definition fulfilment (arrival : string * FetchOutcome) : option IPGeoResult :=
  endpoint ← List.find (fun e => String.eqb (url e) arrival.1) fallbackEndpoints;
  attempt endpoint arrival.2.

Definition fetchExternalGeo (responses : list (string * FetchOutcome))
  : option IPGeoResult :=
  head (omap fulfilment responses).

Record Network := {
  first_party : FetchOutcome;
  third_party : list (string * FetchOutcome);
}.

Definition fetchGeo (net : Network) : option IPGeoResult :=
  match fetchVercelGeo (first_party net) with
  | Some vercelResult => Some vercelResult
  | None => fetchExternalGeo (third_party net)
  end.

(** The module-level state.  A promise is kept as the value it settles
    with. *)
Record Cache := {
  cachedResult : option IPGeoResult;
  cachedAt : Z;
  inflight : option (option IPGeoResult);
}.

(** [ipGeolocate] called at time [now]: the value its promise settles with,
    and the state it leaves on return. *)
Definition ipGeolocate (now : Z) (net : Network) (st : Cache)
  : option IPGeoResult * Cache :=
  if bool_decide (is_Some (cachedResult st)) && (now - cachedAt st <? CACHE_MAX_AGE_MS)
  then (cachedResult st, st)
  else match inflight st with
       | Some promise => (promise, st)
       | None =>
           let result := fetchGeo net in
           (result, {| cachedResult := cachedResult st; cachedAt := cachedAt st;
                       inflight := Some result |})
       end.

(** The [then] callback of the request in flight, run at time [now] when the
    request has settled with [result]. *)
Definition settled (result : option IPGeoResult) (now : Z) (st : Cache) : Cache :=
  match result with
  | Some _ => {| cachedResult := result; cachedAt := now; inflight := None |}
  | None => {| cachedResult := cachedResult st; cachedAt := cachedAt st; inflight := None |}
  end.

(** The cache holds a result younger than five minutes. *)
Definition fresh (now : Z) (st : Cache) : Prop :=
  is_Some (cachedResult st) /\ now - cachedAt st < CACHE_MAX_AGE_MS.

(** The latitude and the longitude an endpoint reads from a body: two fields,
    or for ipinfo.io the two halves of [loc]. *)
Definition coordinates (e : EndpointConfig) (d : gmap string JsValue)
  : JsValue * JsValue :=
  if String.eqb (url e) "https://ipinfo.io/json" then
    match prop d "loc" with
    | JString loc =>
        (from_option JString JUndefined (split loc "," !! 0%nat),
         from_option JString JUndefined (split loc "," !! 1%nat))
    | _ => (JUndefined, JUndefined)
    end
  else (prop d "latitude", prop d "longitude").

(** The city field an endpoint reads. *)
Definition city_field (e : EndpointConfig) : string :=
  if String.eqb (url e) "https://freeipapi.com/api/json" then "cityName" else "city".

(** What the parsers refuse: a coordinate that is not a number, or a zero
    latitude. *)
Definition refused (la lo : JsValue) : bool :=
  isNaN (Number la) || isNaN (Number lo) || is_zero (Number la).

(** *** The parsers *)

Lemma split_without_separator (s : string) (c : ascii) :
  includes s c = false -> split s c = [s].
Proof.
  induction s as [| a s IH]; cbn; [reflexivity |].
  intros [Ha Hs]%orb_false_elim. rewrite Ha, (IH Hs). reflexivity.
Qed.

Lemma parse_coordinates (e : EndpointConfig) (d : gmap string JsValue) :
  e ∈ fallbackEndpoints ->
  parse e d =
    if refused (coordinates e d).1 (coordinates e d).2 then None
    else Some {| lat := Number (coordinates e d).1;
                 lng := Number (coordinates e d).2;
                 city := or_null (prop d (city_field e)) |}.
Proof.
  unfold fallbackEndpoints. rewrite !elem_of_cons, elem_of_nil.
  intros [-> | [-> | [-> | [-> | [-> | []]]]]]; try reflexivity.
  unfold coordinates, refused, city_field; cbn [url parse String.eqb Ascii.eqb Bool.eqb].
  destruct (prop d "loc") as [| | b | n | loc | p]; try reflexivity.
  destruct (includes loc ",") eqn:Hcomma; [reflexivity |].
  rewrite (split_without_separator _ _ Hcomma). cbn.
  now rewrite orb_true_r.
Qed.

(** C8, amended.  The parser of every third-party endpoint returns null
    exactly when the latitude or the longitude it reads does not convert to a
    number, or the latitude is zero; otherwise it returns the two converted
    coordinates.  A zero longitude is not refused. *)
Theorem parse_rejects_invalid (e : EndpointConfig) (d : gmap string JsValue) :
  e ∈ fallbackEndpoints ->
  (parse e d = None <->
     isNaN (Number (coordinates e d).1) = true \/
     isNaN (Number (coordinates e d).2) = true \/
     is_zero (Number (coordinates e d).1) = true) /\
  (forall result, parse e d = Some result ->
     lat result = Number (coordinates e d).1 /\ lng result = Number (coordinates e d).2).
Proof.
  intros He. rewrite (parse_coordinates e d He). unfold refused.
  destruct (isNaN (Number (coordinates e d).1)),
           (isNaN (Number (coordinates e d).2)),
           (is_zero (Number (coordinates e d).1)); cbn [orb];
    (split;
     [ split; [ intros H; try discriminate H; auto
              | intros [? | [? | ?]]; (reflexivity || discriminate) ]
     | intros result H; simplify_eq; auto ]).
Qed.

(** *** The resolver *)

Lemma fetchExternalGeo_None (responses : list (string * FetchOutcome)) :
  fetchExternalGeo responses = None <->
  Forall (fun arrival => fulfilment arrival = None) responses.
Proof.
  unfold fetchExternalGeo. induction responses as [| r rs IH].
  - split; [constructor | reflexivity].
  - change (omap fulfilment (r :: rs))
      with (match fulfilment r with
            | Some result => result :: omap fulfilment rs
            | None => omap fulfilment rs
            end).
    destruct (fulfilment r) eqn:Hr.
    + split; [discriminate | intros H; inversion H; congruence].
    + rewrite IH. split; [now constructor | now inversion 1].
Qed.

Lemma fresh_decide (now : Z) (st : Cache) :
  bool_decide (is_Some (cachedResult st)) && (now - cachedAt st <? CACHE_MAX_AGE_MS) = true
  <-> fresh now st.
Proof.
  unfold fresh. rewrite andb_true_iff, bool_decide_eq_true, Z.ltb_lt. reflexivity.
Qed.

(** C7, amended.  [ipGeolocate] resolves to null exactly when the cache holds
    no fresh result and either the request in flight that the call joins
    settles with null, or none is in flight and the first-party lookup and
    every third-party answer fail.  A stale cached result does not enter. *)
Theorem ipGeolocate_null (now : Z) (net : Network) (st : Cache) :
  (ipGeolocate now net st).1 = None <->
  ~ fresh now st /\
  (inflight st = Some None \/
   inflight st = None /\
   fetchVercelGeo (first_party net) = None /\
   Forall (fun arrival => fulfilment arrival = None) (third_party net)).
Proof.
  unfold ipGeolocate.
  destruct (bool_decide _ && _) eqn:Hfresh; cbn [fst].
  - apply fresh_decide in Hfresh. split; [| tauto].
    destruct Hfresh as [[r Hr] _]. rewrite Hr. discriminate.
  - assert (Hstale : ~ fresh now st)
      by (rewrite <- fresh_decide, Hfresh; discriminate).
    destruct (inflight st) as [promise |]; cbn [fst].
    + split; [intros ->; auto |].
      intros [_ [[= ->] | [[=] _]]]. reflexivity.
    + rewrite <- fetchExternalGeo_None. unfold fetchGeo.
      destruct (fetchVercelGeo (first_party net)).
      * split; [discriminate | intros [_ [[=] | (_ & [=] & _)]]].
      * split; [auto | intros [_ [[=] | (_ & _ & H)]]; exact H].
Qed.

(** A fresh cached result is returned as it is, with no lookup. *)
Lemma ipGeolocate_fresh (now : Z) (net : Network) (st : Cache) :
  fresh now st -> ipGeolocate now net st = (cachedResult st, st).
Proof.
  intros H. apply fresh_decide in H. unfold ipGeolocate. now rewrite H.
Qed.

(** *** What a lookup returns *)

(** Coordinates the resolver lets through: two numbers, the latitude not
    zero. *)
Definition valid (result : IPGeoResult) : Prop :=
  isNaN (lat result) = false /\ is_zero (lat result) = false /\
  isNaN (lng result) = false.

Lemma not_refused (la lo : number Q) :
  isNaN la || isNaN lo || is_zero la = false ->
  isNaN la = false /\ is_zero la = false /\ isNaN lo = false.
Proof. destruct (isNaN la), (isNaN lo), (is_zero la); cbn; intuition discriminate. Qed.

Lemma fetchVercelGeo_valid (response : FetchOutcome) (result : IPGeoResult) :
  fetchVercelGeo response = Some result -> valid result.
Proof.
  unfold fetchVercelGeo, truthy_number.
  destruct response as [| [|] [| | data]]; try discriminate.
  rewrite negb_involutive.
  destruct (_ || _ || _) eqn:Hguard; [discriminate |].
  intros [= <-]. unfold valid; cbn [lat lng].
  apply orb_false_elim in Hguard as [[Hla Hlo]%orb_false_elim [_ Hz]%orb_false_elim].
  auto.
Qed.

Lemma fulfilment_valid (arrival : string * FetchOutcome) (result : IPGeoResult) :
  fulfilment arrival = Some result -> valid result.
Proof.
  unfold fulfilment.
  destruct (List.find _ fallbackEndpoints) as [endpoint |] eqn:Hfind; [| discriminate].
  apply find_some in Hfind as [Hin _]. apply list_elem_of_In in Hin.
  cbn [mbind option_bind]. unfold attempt.
  destruct arrival.2 as [| [|] [| | data]]; try discriminate.
  rewrite (parse_coordinates endpoint data Hin).
  destruct (refused _ _) eqn:Hrefused; [discriminate |].
  intros [= <-]. unfold valid; cbn [lat lng]. now apply not_refused.
Qed.

(** Whatever the network answers, a location that [fetchGeo] returns has a
    latitude and a longitude that are numbers, and its latitude is not 0. *)
Theorem fetchGeo_valid (net : Network) (result : IPGeoResult) :
  fetchGeo net = Some result -> valid result.
Proof.
  unfold fetchGeo.
  destruct (fetchVercelGeo (first_party net)) as [vercelResult |] eqn:Hvercel.
  - intros [= <-]. now apply (fetchVercelGeo_valid (first_party net)).
  - unfold fetchExternalGeo. intros Hhead%head_Some_elem_of.
    apply list_elem_of_omap in Hhead as (arrival & _ & Hful).
    now apply (fulfilment_valid arrival).
Qed.

(** The third-party answer that wins is the first to arrive that its
    endpoint can parse: answers that fail before it do not count, answers
    after it are not looked at.  A first-party result makes the third
    parties irrelevant. *)
Theorem fetchGeo_first_success (net : Network)
    (failures later : list (string * FetchOutcome)) (winner : string * FetchOutcome)
    (result : IPGeoResult) :
  Forall (fun arrival => fulfilment arrival = None) failures ->
  fulfilment winner = Some result ->
  fetchExternalGeo (failures ++ winner :: later) = Some result /\
  (fetchVercelGeo (first_party net) = None ->
   third_party net = failures ++ winner :: later -> fetchGeo net = Some result) /\
  (forall vercelResult, fetchVercelGeo (first_party net) = Some vercelResult ->
                        fetchGeo net = Some vercelResult).
Proof.
  intros Hfailures Hwinner.
  assert (Hexternal : fetchExternalGeo (failures ++ winner :: later) = Some result).
  { unfold fetchExternalGeo. rewrite omap_app.
    apply fetchExternalGeo_None in Hfailures. unfold fetchExternalGeo in Hfailures.
    destruct (omap fulfilment failures); [| discriminate].
    change (omap fulfilment (winner :: later))
      with (match fulfilment winner with
            | Some r => r :: omap fulfilment later
            | None => omap fulfilment later
            end).
    rewrite Hwinner. reflexivity. }
  split; [exact Hexternal |]. split.
  - intros Hvercel Hthird. unfold fetchGeo. now rewrite Hvercel, Hthird.
  - intros vercelResult Hvercel. unfold fetchGeo. now rewrite Hvercel.
Qed.

(** *** The cache and the request in flight *)


(** After a lookup has settled with a result at time [t], every call less
    than five minutes later resolves to that result without touching the
    network or the state; from five minutes on the call looks up again. *)
Theorem ipGeolocate_cached (result : IPGeoResult) (t now : Z) (net : Network) (st : Cache) :
  let st' := settled (Some result) t st in
  (now - t < CACHE_MAX_AGE_MS -> ipGeolocate now net st' = (Some result, st')) /\
  (CACHE_MAX_AGE_MS <= now - t -> (ipGeolocate now net st').1 = fetchGeo net).
Proof.
  cbv zeta. unfold ipGeolocate, settled. cbn [cachedResult cachedAt inflight].
  rewrite bool_decide_eq_true_2 by (eexists; reflexivity). cbn [andb].
  split; intros Hage.
  - apply Z.ltb_lt in Hage. now rewrite Hage.
  - apply Z.ltb_ge in Hage. now rewrite Hage.
Qed.


End WithStringToNumber.

Lemma fetchGeo_first_success_witness :
  fetchExternalGeo (fun _ => NaN)
    ([("https://ipwho.is/", Rejected)] ++
     ("https://get.geojs.io/v1/ip/geo.json",
      Responded true (Object {[ "latitude" := JNumber (Finite (357 # 10));
                                "longitude" := JNumber (Finite (514 # 10)) ]})) :: []) =
    Some {| lat := Finite (357 # 10); lng := Finite (514 # 10); city := JNull |}.
Proof.
  refine (proj1 (fetchGeo_first_success (fun _ => NaN)
                   {| first_party := Rejected; third_party := [] |}
                   [("https://ipwho.is/", Rejected)] []
                   ("https://get.geojs.io/v1/ip/geo.json",
                    Responded true (Object {[ "latitude" := JNumber (Finite (357 # 10));
                                              "longitude" := JNumber (Finite (514 # 10)) ]}))
                   _ _ _)).
  - constructor; [reflexivity | constructor].
  - reflexivity.
Defined.

Lemma fetchGeo_valid_witness :
  valid {| lat := Finite (357 # 10); lng := Finite (514 # 10); city := JNull |}.
Proof.
  apply (fetchGeo_valid (fun _ => NaN)
           {| first_party :=
                Responded true (Object {[ "lat" := JNumber (Finite (357 # 10));
                                          "lng" := JNumber (Finite (514 # 10)) ]});
              third_party := [] |}).
  reflexivity.
Defined.


Lemma parse_rejects_invalid_witness :
  Forall (fun e => parse e ∅ = None) (fallbackEndpoints (fun _ => NaN)).
Proof.
  apply Forall_forall. intros e He.
  apply (parse_rejects_invalid (fun _ => NaN) e ∅ He).
  unfold fallbackEndpoints in He. rewrite !elem_of_cons, elem_of_nil in He.
  destruct He as [-> | [-> | [-> | [-> | [-> | []]]]]]; left; reflexivity.
Defined.

(** C8 as stated fails at a zero longitude: a body with latitude 51.5 and
    longitude 0 is parsed into a result by the first endpoint. *)
Lemma parse_accepts_zero_longitude :
  exists d : gmap string JsValue,
    prop d "latitude" = JNumber (Finite (103 # 2)) /\
    prop d "longitude" = JNumber (Finite 0%Q) /\
    forall StringToNumber, exists e,
      e ∈ fallbackEndpoints StringToNumber /\
      url e = "https://get.geojs.io/v1/ip/geo.json" /\
      parse e d = Some {| lat := Finite (103 # 2); lng := Finite 0%Q; city := JNull |}.
Proof.
  exists {[ "latitude" := JNumber (Finite (103 # 2)); "longitude" := JNumber (Finite 0%Q) ]}.
  split; [reflexivity |]. split; [reflexivity |].
  intros StringToNumber. eexists. split; [apply list_elem_of_here |].
  split; reflexivity.
Qed.

(** C7 as stated fails with a stale cache: five minutes after a result was
    cached, with every lookup failing, the call resolves to null although a
    cached result exists. *)
Lemma ipGeolocate_stale_cache_null :
  exists (cached : IPGeoResult) (now : Z) (net : Network),
    let st := {| cachedResult := Some cached; cachedAt := 0; inflight := None |} in
    is_Some (cachedResult st) /\
    forall StringToNumber, (ipGeolocate StringToNumber now net st).1 = None.
Proof.
  exists {| lat := Finite (357 # 10); lng := Finite (514 # 10); city := JString "Tehran" |},
         300000, {| first_party := Rejected; third_party := [] |}.
  split; [eexists; reflexivity |]. intros StringToNumber. reflexivity.
Qed.

End IpGeolocate.

(** ** api/geo.ts, and its client in lib/ipGeolocate.ts *)

Module GeoApi.
Import JS IpGeolocate.

(** The three headers the handler reads; a header that was not sent is
    [undefined]. *)
Record Headers := {
  x_vercel_ip_latitude : option string;
  x_vercel_ip_longitude : option string;
  x_vercel_ip_city : option string;
}.

(** [h ? f (h) : null] for a header: absent and empty are falsy. *)
Definition if_sent {A} (h : option string) (f : string -> A) (otherwise : A) : A :=
  match h with
  | None | Some "" => otherwise
  | Some s => f s
  end.

(** A number as it comes out of [res.json] and the client's [res.json ()]:
    JSON has no NaN and no infinity, they are written as [null]. *)
Definition json_number (n : number Q) : JsValue :=
  match n with
  | Finite q => JNumber (Finite q)
  | _ => JNull
  end.

Section WithBuiltins.

Variable StringToNumber : string -> number Q.

(** [decodeURIComponent]: the decoded string, or nothing when it throws. *)
Variable decodeURIComponent : string -> option string.

(** The handler, as the response its client receives.  When decoding the
    city throws, the function fails and the platform answers with an error
    status. *)
Definition handler (headers : Headers) : FetchOutcome :=
  let lat := x_vercel_ip_latitude headers in
  let lng := x_vercel_ip_longitude headers in
  let city := x_vercel_ip_city headers in
  match if_sent city (fun c => JString <$> decodeURIComponent c) (Some JNull) with
  | None => Responded false Malformed
  | Some decoded =>
      Responded true
        (Object {[ "lat" := if_sent lat (fun s => json_number (StringToNumber s)) JNull;
                   "lng" := if_sent lng (fun s => json_number (StringToNumber s)) JNull;
                   "city" := decoded ]})
  end.

(** The first-party lookup against this handler. *)
Definition lookup (headers : Headers) : option IPGeoResult :=
  fetchVercelGeo StringToNumber (handler headers).

(** The number a header gives on the client: the header's number when it is
    one, and 0 for a header that is absent, empty or not a finite number,
    since all of these travel as [null]. *)
Definition arrives (h : option string) : number Q :=
  if_sent h (fun s => match StringToNumber s with Finite q => Finite q | _ => Finite 0%Q end)
          (Finite 0%Q).

Lemma Number_sent (h : option string) :
  Number StringToNumber (if_sent h (fun s => json_number (StringToNumber s)) JNull) = arrives h.
Proof.
  unfold arrives, if_sent. destruct h as [[| a s] |]; try reflexivity.
  destruct (StringToNumber (String a s)); reflexivity.
Qed.

Lemma arrives_number (h : option string) : isNaN (arrives h) = false.
Proof.
  unfold arrives, if_sent. destruct h as [[| a s] |]; try reflexivity.
  destruct (StringToNumber (String a s)); reflexivity.
Qed.

Lemma lookup_decoded (headers : Headers) (decoded : JsValue) :
  if_sent (x_vercel_ip_city headers) (fun c => JString <$> decodeURIComponent c) (Some JNull)
    = Some decoded ->
  lookup headers =
    if is_zero (arrives (x_vercel_ip_latitude headers)) then None
    else Some {| lat := arrives (x_vercel_ip_latitude headers);
                 lng := arrives (x_vercel_ip_longitude headers);
                 city := or_null decoded |}.
Proof.
  intros Hcity. unfold lookup, handler. cbv zeta. rewrite Hcity.
  unfold fetchVercelGeo, prop.
  rewrite lookup_insert_eq.
  rewrite lookup_insert_ne, lookup_insert_eq by discriminate.
  rewrite lookup_insert_ne, lookup_insert_ne, lookup_singleton_eq by discriminate.
  cbn [default]. unfold id. rewrite !Number_sent.
  unfold truthy_number. rewrite !arrives_number. cbn [orb negb].
  destruct (is_zero _); reflexivity.
Qed.

(** The longitude is optional in effect: with a latitude header that is a
    number other than 0, the lookup succeeds whatever the longitude header
    is, and a longitude header that is missing or is not a number comes out
    as longitude 0. *)
Theorem lookup_without_longitude (headers : Headers) (decoded : JsValue) :
  if_sent (x_vercel_ip_city headers) (fun c => JString <$> decodeURIComponent c) (Some JNull)
    = Some decoded ->
  is_zero (arrives (x_vercel_ip_latitude headers)) = false ->
  exists result,
    lookup headers = Some result /\
    lat result = arrives (x_vercel_ip_latitude headers) /\
    (if_sent (x_vercel_ip_longitude headers)
             (fun s => isNaN (StringToNumber s)) true = true ->
     lng result = Finite 0%Q).
Proof.
  intros Hcity Hlat. rewrite (lookup_decoded headers decoded Hcity), Hlat.
  eexists. split; [reflexivity |]. split; [reflexivity |].
  cbn [lng]. unfold arrives, if_sent.
  destruct (x_vercel_ip_longitude headers) as [[| a s] |]; try reflexivity.
  destruct (StringToNumber (String a s)); (reflexivity || discriminate).
Qed.

(** The latitude is not: without a latitude header that is a finite number
    other than 0 the lookup fails, whatever the other headers are. *)
Theorem lookup_without_latitude (headers : Headers) :
  is_zero (arrives (x_vercel_ip_latitude headers)) = true ->
  lookup headers = None.
Proof.
  intros Hlat.
  destruct (if_sent (x_vercel_ip_city headers)
                    (fun c => JString <$> decodeURIComponent c) (Some JNull))
    as [decoded |] eqn:Hcity.
  - now rewrite (lookup_decoded headers decoded Hcity), Hlat.
  - unfold lookup, handler. cbv zeta. now rewrite Hcity.
Qed.

End WithBuiltins.

Lemma lookup_without_longitude_witness :
  exists result,
    lookup (fun _ => Finite (357 # 10)) Some
      {| x_vercel_ip_latitude := Some "35.7"; x_vercel_ip_longitude := None;
         x_vercel_ip_city := Some "Tehran" |} = Some result /\
    lat result = Finite (357 # 10) /\
    (true = true -> lng result = Finite 0%Q).
Proof.
  apply (lookup_without_longitude (fun _ => Finite (357 # 10)) Some
           {| x_vercel_ip_latitude := Some "35.7"; x_vercel_ip_longitude := None;
              x_vercel_ip_city := Some "Tehran" |} (JString "Tehran")).
  - reflexivity.
  - reflexivity.
Defined.

Lemma lookup_without_latitude_witness :
  lookup (fun _ => Finite (514 # 10)) Some
    {| x_vercel_ip_latitude := None; x_vercel_ip_longitude := Some "51.4";
       x_vercel_ip_city := None |} = None.
Proof.
  apply (lookup_without_latitude (fun _ => Finite (514 # 10)) Some).
  reflexivity.
Defined.

End GeoApi.

(** ** lib/serverCrowdCounter.ts *)

Module ServerCrowdCounter.
Import JS.

Definition HEARTBEAT_INTERVAL_MS : Z := 30 * 1000.
Definition INITIAL_RETRY_MS : Z := 3 * 1000.
Definition MAX_INITIAL_RETRIES : Z := 10.
Definition COORDS_MAX_AGE_MS : Z := 5 * 60 * 1000.

Record Coords := {
  lat : number Q;
  lng : number Q;
}.

Record ServerCrowdState := {
  nearbyCount : Z;
  approximateCount : Z;
  isActive : bool;
  locationServicesOff : bool;
  error : option string;
}.

(** [Partial<ServerCrowdState>] *)
Record PartialState := {
  set_nearbyCount : option Z;
  set_approximateCount : option Z;
  set_isActive : option bool;
  set_locationServicesOff : option bool;
  set_error : option (option string);
}.

(** The fields of the counter that a heartbeat reads or writes, and
    [delivered], the states its listeners have been handed, latest first. *)
Record Counter := {
  deviceHash : option string;
  cachedCoords : option Coords;
  cachedCoordsTime : Z;
  state : ServerCrowdState;
  delivered : list ServerCrowdState;
}.

(** How a statement ends: normally with a value, or by throwing. *)
Inductive Completion (A : Type) :=
| Normal (a : A)
| Throw (reason : string).
Arguments Normal {A} a.
Arguments Throw {A} reason.

(** [try { body } catch (err) { handler }] over the counter. *)
Definition try_catch {A} (body : Completion A * Counter)
    (handler : string -> Counter -> Completion A * Counter) : Completion A * Counter :=
  match body with
  | (Throw reason, c) => handler reason c
  | (Normal a, c) => (Normal a, c)
  end.

(** The data of a remote answer: a number, or anything else. *)
Inductive RpcData :=
| DNumber (n : Z)
| DOther.

(** How [await supabase.rpc ('heartbeat_nearby', ...)] ends. *)
Inductive RpcOutcome :=
| Rejects (reason : string)
| Resolves (data : RpcData) (error : option string).

(** What one heartbeat meets: the clock when it looks at its cached
    coordinates, what [ipGeolocate ()] resolves to (it never rejects) and the
    clock then, and the end of the remote call. *)
Record World := {
  now : Z;
  located : option IpGeolocate.IPGeoResult;
  located_at : Z;
  remote : RpcOutcome;
}.

(** [notify]: every listener is called inside its own [try], so nothing is
    thrown. *)
Definition notify (c : Counter) : Counter :=
  {| deviceHash := deviceHash c; cachedCoords := cachedCoords c;
     cachedCoordsTime := cachedCoordsTime c; state := state c;
     delivered := state c :: delivered c |}.

Definition updateState (partial : PartialState) (c : Counter) : Counter :=
  let merged :=
    {| nearbyCount := default (nearbyCount (state c)) (set_nearbyCount partial);
       approximateCount := default (approximateCount (state c)) (set_approximateCount partial);
       isActive := default (isActive (state c)) (set_isActive partial);
       locationServicesOff :=
         default (locationServicesOff (state c)) (set_locationServicesOff partial);
       error := default (error (state c)) (set_error partial) |} in
  notify {| deviceHash := deviceHash c; cachedCoords := cachedCoords c;
            cachedCoordsTime := cachedCoordsTime c; state := merged;
            delivered := delivered c |}.

Definition getCoordsFromIP (w : World) : option Coords :=
  match located w with
  | Some result =>
      Some {| lat := IpGeolocate.lat result; lng := IpGeolocate.lng result |}
  | None => None
  end.

Definition getCoords (w : World) (c : Counter) : option Coords * Counter :=
  if bool_decide (is_Some (cachedCoords c))
     && (now w - cachedCoordsTime c <? COORDS_MAX_AGE_MS)
  then (cachedCoords c, c)
  else
    let coords := getCoordsFromIP w in
    let c :=
      match coords with
      | Some _ =>
          {| deviceHash := deviceHash c; cachedCoords := coords;
             cachedCoordsTime := located_at w; state := state c;
             delivered := delivered c |}
      | None => c
      end in
    match coords, cachedCoords c with
    | None, Some cached => (Some cached, c)
    | _, _ => (coords, c)
    end.

(** [await] of the remote call: a rejection is thrown. *)
Definition await_rpc (o : RpcOutcome) : Completion (RpcData * option string) :=
  match o with
  | Rejects reason => Throw reason
  | Resolves data error => Normal (data, error)
  end.

Definition sendHeartbeat (w : World) (c : Counter) : Completion bool * Counter :=
  match deviceHash c with
  | None | Some "" => (Normal false, c)
  | Some _ =>
      let '(coords, c) := getCoords w c in
      match coords with
      | None => (Normal false, c)
      | Some coords =>
          try_catch
            (match await_rpc (remote w) with
             | Throw reason => (Throw reason, c)
             | Normal (_, Some _) => (Normal false, c)
             | Normal (data, None) =>
                 let rawCount := match data with DNumber n => n | DOther => 0 end in
                 (Normal true,
                  updateState
                    {| set_nearbyCount := Some rawCount;
                       set_approximateCount := Some (Approximation.approximateCount rawCount);
                       set_isActive := Some true;
                       set_locationServicesOff := Some false;
                       set_error := Some None |} c)
             end)
            (fun err c => (Normal false, c))
      end
  end.

(** The remote call of a heartbeat fails: the promise rejects, or the answer
    carries an error. *)
Definition remote_fails (w : World) : Prop :=
  match remote w with
  | Rejects _ => True
  | Resolves _ error => is_Some error
  end.

(** A counter that has been active, with cached coordinates. *)
Definition active_counter : Counter :=
  {| deviceHash := Some "9f86d081884c7d65";
     cachedCoords := Some {| lat := Finite (357 # 10); lng := Finite (514 # 10) |};
     cachedCoordsTime := 1000;
     state := {| nearbyCount := 7; approximateCount := 10; isActive := true;
                 locationServicesOff := false; error := None |};
     delivered := [] |}.

Definition offline (at_ms : Z) : World :=
  {| now := at_ms; located := None; located_at := at_ms;
     remote := Rejects "Failed to fetch" |}.

(** *** Failure of the remote call *)

Lemma getCoords_state (w : World) (c : Counter) :
  state (getCoords w c).2 = state c /\
  delivered (getCoords w c).2 = delivered c /\
  deviceHash (getCoords w c).2 = deviceHash c.
Proof.
  unfold getCoords.
  destruct (bool_decide _ && _); [auto |].
  destruct (getCoordsFromIP w); cbn; [auto |].
  destruct (cachedCoords c); auto.
Qed.

(** A heartbeat never throws. *)
Lemma sendHeartbeat_no_throw (w : World) (c : Counter) :
  exists sent, (sendHeartbeat w c).1 = Normal sent.
Proof.
  unfold sendHeartbeat.
  destruct (deviceHash c) as [[| a hash] |]; try (eexists; reflexivity).
  destruct (getCoords w c) as [[coords |] c']; [| eexists; reflexivity].
  destruct (remote w) as [reason | data [e |]]; eexists; reflexivity.
Qed.

(** C9, amended.  A heartbeat whose remote call fails (error in the answer,
    or an exception) leaves the whole [ServerCrowdState] as it was,
    [isActive] and [error] included, hands nothing to the listeners, and
    resolves to false without throwing. *)
Theorem sendHeartbeat_remote_failure (w : World) (c : Counter) :
  remote_fails w ->
  (sendHeartbeat w c).1 = Normal false /\
  state (sendHeartbeat w c).2 = state c /\
  delivered (sendHeartbeat w c).2 = delivered c.
Proof.
  intros Hfails. unfold sendHeartbeat.
  destruct (deviceHash c) as [[| a hash] |]; try (repeat split; reflexivity).
  pose proof (getCoords_state w c) as (Hstate & Hdelivered & _).
  destruct (getCoords w c) as [[coords |] c']; cbn [snd] in *;
    [| repeat split; assumption].
  unfold remote_fails in Hfails.
  destruct (remote w) as [reason | data [e |]]; cbn; try (repeat split; assumption).
  destruct Hfails; discriminate.
Qed.

Lemma sendHeartbeat_remote_failure_witness :
  (sendHeartbeat (offline 2000) active_counter).1 = Normal false /\
  state (sendHeartbeat (offline 2000) active_counter).2 = state active_counter /\
  delivered (sendHeartbeat (offline 2000) active_counter).2 = delivered active_counter.
Proof.
  apply (sendHeartbeat_remote_failure (offline 2000) active_counter).
  exact I.
Defined.

(** C9 as stated fails: after a heartbeat whose remote call throws, an
    active counter is still marked active and no error is recorded. *)
Lemma sendHeartbeat_failure_keeps_active :
  remote_fails (offline 2000) /\
  isActive (state active_counter) = true /\
  isActive (state (sendHeartbeat (offline 2000) active_counter).2) = true /\
  error (state (sendHeartbeat (offline 2000) active_counter).2) = None.
Proof. repeat split. Qed.

(** *** Coordinates *)

(** A heartbeat goes without coordinates only when the geolocation fails and
    the counter has none cached, however old: after a failed lookup the
    cached coordinates are used again. *)
Theorem getCoords_none (w : World) (c : Counter) :
  ((getCoords w c).1 = None <-> cachedCoords c = None /\ located w = None) /\
  (forall cached, located w = None -> cachedCoords c = Some cached ->
                  getCoords w c = (Some cached, c)).
Proof.
  unfold getCoords, getCoordsFromIP.
  destruct (cachedCoords c) as [cached |] eqn:Hcached.
  - rewrite bool_decide_eq_true_2 by (eexists; reflexivity). cbn [andb].
    destruct (_ <? _).
    + cbn [fst]. split; [split; [discriminate | intros [[=] _]] |].
      intros k _ [= <-]. reflexivity.
    + destruct (located w) as [result |]; cbn [fst cachedCoords].
      * split; [split; [discriminate | intros [[=] _]] | discriminate].
      * rewrite Hcached. cbn [fst].
        split; [split; [discriminate | intros [[=] _]] |].
        intros k _ [= <-]. reflexivity.
  - rewrite bool_decide_eq_false_2 by (intros [k Hk]; discriminate). cbn [andb].
    destruct (located w) as [result |]; cbn [fst cachedCoords].
    + split; [split; [discriminate | intros [_ [=]]] | discriminate].
    + rewrite Hcached. cbn [fst]. split; [tauto | discriminate].
Qed.

(** *** A heartbeat that succeeds *)

(** [!this.deviceHash] *)
Definition hashed (c : Counter) : Prop :=
  exists hash, deviceHash c = Some hash /\ hash <> "".

(** A heartbeat resolves to true exactly when the device hash is set,
    coordinates are found and the remote call answers without error; it then
    publishes the raw count of the answer (0 when the data is not a number)
    with its quantization, marks the counter active without error, and hands
    that state to the listeners once. *)
Theorem sendHeartbeat_success (w : World) (c : Counter) :
  ((sendHeartbeat w c).1 = Normal true <->
   hashed c /\ is_Some (getCoords w c).1 /\ exists data, remote w = Resolves data None) /\
  (forall data, (sendHeartbeat w c).1 = Normal true -> remote w = Resolves data None ->
     let rawCount := match data with DNumber n => n | DOther => 0 end in
     state (sendHeartbeat w c).2 =
       {| nearbyCount := rawCount;
          approximateCount := Approximation.approximateCount rawCount;
          isActive := true; locationServicesOff := false; error := None |} /\
     delivered (sendHeartbeat w c).2 = state (sendHeartbeat w c).2 :: delivered c).
Proof.
  unfold sendHeartbeat, hashed.
  pose proof (getCoords_state w c) as (Hstate & Hdelivered & _).
  destruct (deviceHash c) as [[| a hash] |] eqn:Hhash.
  - split; [split; [discriminate | intros [(h & [= <-] & Hne) _]; congruence] | discriminate].
  - destruct (getCoords w c) as [[coords |] c']; cbn [fst snd] in *.
    + destruct (remote w) as [reason | data [e |]]; cbn.
      * split; [split; [discriminate | intros (_ & _ & d & [=])] | discriminate].
      * split; [split; [discriminate | intros (_ & _ & d & [=])] | discriminate].
      * split.
        -- split; [intros _ | reflexivity].
           split; [eexists; split; [reflexivity | discriminate] |].
           split; eexists; reflexivity.
        -- intros data' _ [= <-]. rewrite Hdelivered. split; reflexivity.
    + split; [split; [discriminate | intros (_ & [k [=]] & _)] | discriminate].
  - split; [split; [discriminate | intros [(h & [=] & _) _]] | discriminate].
Qed.

Lemma sendHeartbeat_success_witness :
  let w := {| now := 2000; located := None; located_at := 2000;
              remote := Resolves (DNumber 23) None |} in
  state (sendHeartbeat w active_counter).2 =
    {| nearbyCount := 23; approximateCount := Approximation.approximateCount 23;
       isActive := true; locationServicesOff := false; error := None |} /\
  delivered (sendHeartbeat w active_counter).2 =
    state (sendHeartbeat w active_counter).2 :: delivered active_counter.
Proof.
  cbv zeta.
  apply (proj2 (sendHeartbeat_success
                  {| now := 2000; located := None; located_at := 2000;
                     remote := Resolves (DNumber 23) None |} active_counter)
               (DNumber 23)); reflexivity.
Defined.

(** *** stop, and what the listeners are told *)

(** [stop]: the timers are cleared, the cached coordinates forgotten, and
    the state reset. *)
Definition stop (c : Counter) : Counter :=
  updateState
    {| set_nearbyCount := Some 0; set_approximateCount := Some 0;
       set_isActive := Some false; set_locationServicesOff := None;
       set_error := Some None |}
    {| deviceHash := deviceHash c; cachedCoords := None; cachedCoordsTime := 0;
       state := state c; delivered := delivered c |}.

(** What happens to a counter: heartbeats and stops. *)
Inductive Action :=
| Heartbeat (w : World)
| Stop.

Definition act (c : Counter) (a : Action) : Counter :=
  match a with
  | Heartbeat w => (sendHeartbeat w c).2
  | Stop => stop c
  end.

(** The counter as it is constructed. *)
Definition initial (hash : option string) : Counter :=
  {| deviceHash := hash; cachedCoords := None; cachedCoordsTime := 0;
     state := {| nearbyCount := 0; approximateCount := 0; isActive := false;
                 locationServicesOff := false; error := None |};
     delivered := [] |}.

(** The displayed count is the quantization of the raw one. *)
Definition quantized (s : ServerCrowdState) : Prop :=
  approximateCount s = Approximation.approximateCount (nearbyCount s).

Definition consistent (c : Counter) : Prop :=
  quantized (state c) /\ Forall quantized (delivered c).

Lemma consistent_same (c c' : Counter) :
  state c' = state c -> delivered c' = delivered c -> consistent c -> consistent c'.
Proof. unfold consistent. now intros -> ->. Qed.

Lemma act_consistent (c : Counter) (a : Action) : consistent c -> consistent (act c a).
Proof.
  intros Hc. destruct a as [w |]; cbn [act].
  - unfold sendHeartbeat.
    destruct (deviceHash c) as [[| ch hash] |]; try exact Hc.
    pose proof (getCoords_state w c) as (Hs & Hd & _).
    destruct (getCoords w c) as [[coords |] c']; cbn [snd] in *;
      [| now apply (consistent_same c)].
    assert (Hc' : consistent c') by now apply (consistent_same c).
    destruct (remote w) as [reason | data [e |]]; cbn [await_rpc try_catch];
      try exact Hc'.
    destruct Hc' as [_ Hdelivered].
    unfold updateState, notify, consistent, quantized. cbn.
    split; [reflexivity |]. constructor; [reflexivity | exact Hdelivered].
  - destruct Hc as [_ Hdelivered].
    unfold stop, updateState, notify, consistent, quantized. cbn.
    split; [reflexivity |]. constructor; [reflexivity | exact Hdelivered].
Qed.

(** Through any sequence of heartbeats and stops, the state of the counter
    and every state handed to its listeners show the quantization of the raw
    count they carry. *)
Theorem counter_quantized (hash : option string) (actions : list Action) :
  consistent (fold_left act actions (initial hash)).
Proof.
  assert (Hinit : consistent (initial hash)) by (split; [reflexivity | constructor]).
  revert Hinit. generalize (initial hash).
  induction actions as [| a actions IH]; intros c Hc; [exact Hc |].
  cbn [fold_left]. apply IH. now apply act_consistent.
Qed.

(** *** hashDeviceId *)

(** [x | 0]: the signed 32-bit integer congruent to [x]. *)
Definition to_int32 (z : Z) : Z := (z + 2 ^ 31) mod 2 ^ 32 - 2 ^ 31.

(** [input.charCodeAt (i)] for every [i], for an input of ASCII characters
    (the salt and a UUID). *)
Definition charCodes (input : string) : list Z :=
  List.map (fun a => Z.of_N (N_of_ascii a)) (String.list_ascii_of_string input).

(** The fallback hash: [hash = ((hash << 5) + hash + code) | 0] from 5381. *)
Definition djb2 (input : string) : Z :=
  fold_left (fun hash code => to_int32 (to_int32 (hash * 32) + hash + code))
            (charCodes input) 5381.





Lemma to_int32_range (z : Z) : - 2 ^ 31 <= to_int32 z < 2 ^ 31.
Proof.
  unfold to_int32. pose proof (Z.mod_pos_bound (z + 2 ^ 31) (2 ^ 32) ltac:(lia)). lia.
Qed.

Lemma to_int32_add_mul (z k : Z) : to_int32 (z + k * 2 ^ 32) = to_int32 z.
Proof.
  unfold to_int32.
  replace (z + k * 2 ^ 32 + 2 ^ 31) with (z + 2 ^ 31 + k * 2 ^ 32) by lia.
  now rewrite Z_mod_plus_full.
Qed.

Lemma to_int32_wraps (z : Z) : exists k, to_int32 z = z + k * 2 ^ 32.
Proof.
  exists (- ((z + 2 ^ 31) / 2 ^ 32)). unfold to_int32.
  pose proof (Z.div_mod (z + 2 ^ 31) (2 ^ 32) ltac:(lia)). lia.
Qed.

Lemma djb2_step (hash code : Z) :
  to_int32 (to_int32 (to_int32 hash * 32) + to_int32 hash + code)
  = to_int32 (33 * hash + code).
Proof.
  destruct (to_int32_wraps hash) as [k1 ->].
  destruct (to_int32_wraps ((hash + k1 * 2 ^ 32) * 32)) as [k2 ->].
  replace ((hash + k1 * 2 ^ 32) * 32 + k2 * 2 ^ 32 + (hash + k1 * 2 ^ 32) + code)
    with (33 * hash + code + (33 * k1 + k2) * 2 ^ 32) by lia.
  apply to_int32_add_mul.
Qed.

Lemma djb2_fold (codes : list Z) (hash : Z) :
  fold_left (fun hash code => to_int32 (to_int32 (hash * 32) + hash + code))
            codes (to_int32 hash)
  = to_int32 (fold_left (fun hash code => 33 * hash + code) codes hash).
Proof.
  revert hash. induction codes as [| code codes IH]; intros hash; [reflexivity |].
  cbn [fold_left]. rewrite djb2_step. apply IH.
Qed.

(** The fallback hash is the polynomial hash of the code units, base 33 from
    5381, wrapped to a signed 32-bit integer. *)
Theorem djb2_polynomial (input : string) :
  djb2 input = to_int32 (fold_left (fun hash code => 33 * hash + code)
                                   (charCodes input) 5381) /\
  - 2 ^ 31 <= djb2 input < 2 ^ 31.
Proof.
  assert (Heq : djb2 input = to_int32 (fold_left (fun hash code => 33 * hash + code)
                                                 (charCodes input) 5381)).
  { unfold djb2. change 5381 with (to_int32 5381) at 1. apply djb2_fold. }
  split; [exact Heq |]. rewrite Heq. apply to_int32_range.
Qed.





End ServerCrowdCounter.

(** ** lib/crowdReporter.ts *)

Module CrowdReporter.

Definition REPORT_INTERVAL_MS : Z := 60 * 1000.

(** The arguments of [report_crowd_peak]. *)
Record Report := {
  p_city : string;
  p_date : string;
  p_count : Z;
}.

(** How the awaited remote call ends. *)
Inductive RpcOutcome :=
| Rejects
| Resolves (error : option string).

(** The two counters of the reporter. *)
Record Reporter := {
  peakRawCount : Z;
  lastReportedPeak : Z;
}.

(** The listener [start] subscribes to the crowd counter. *)
Definition onState (state : ServerCrowdCounter.ServerCrowdState) (r : Reporter) : Reporter :=
  let raw := ServerCrowdCounter.nearbyCount state in
  if peakRawCount r <? raw
  then {| peakRawCount := raw; lastReportedPeak := lastReportedPeak r |}
  else r.

(** [reportPeak] up to its [await]: the remote call it makes, if any.
    [city] is what the location service knows, [today] the date. *)
Definition reportPeak_begin (city : option string) (today : string) (r : Reporter) :
    option Report :=
  let approx := Approximation.approximateCount (peakRawCount r) in
  if (approx <=? 0) || (approx =? lastReportedPeak r) then None
  else
    match city with
    | None | Some "" => None
    | Some city => Some {| p_city := city; p_date := today; p_count := approx |}
    end.

(** [reportPeak] after its [await], [approx] being the value it captured. *)
Definition reportPeak_end (approx : Z) (outcome : RpcOutcome) (r : Reporter) : Reporter :=
  match outcome with
  | Resolves None => {| peakRawCount := peakRawCount r; lastReportedPeak := approx |}
  | Resolves (Some _) | Rejects => r
  end.

Definition stop (r : Reporter) : Reporter :=
  {| peakRawCount := 0; lastReportedPeak := 0 |}.

(** A session between [start] and [stop]: the reporter, the values captured
    by the calls of [reportPeak] that are waiting for their answer (oldest
    first), the remote calls made and the counts whose call was accepted
    (both latest first). *)
Record Session := {
  reporter : Reporter;
  in_flight : list Z;
  sent : list Report;
  accepted : list Z;
}.

Definition started : Session :=
  {| reporter := {| peakRawCount := 0; lastReportedPeak := 0 |};
     in_flight := []; sent := []; accepted := [] |}.

(** What happens during a session: the crowd counter notifies a state, the
    timer fires, or the remote call of the [i]-th waiting [reportPeak]
    settles. *)
Inductive Event :=
| Counted (state : ServerCrowdCounter.ServerCrowdState)
| Tick (city : option string) (today : string)
| Settled (i : nat) (outcome : RpcOutcome).

Definition is_accepted (outcome : RpcOutcome) : bool :=
  match outcome with
  | Resolves None => true
  | _ => false
  end.

Definition step (s : Session) (e : Event) : Session :=
  match e with
  | Counted state =>
      {| reporter := onState state (reporter s); in_flight := in_flight s;
         sent := sent s; accepted := accepted s |}
  | Tick city today =>
      match reportPeak_begin city today (reporter s) with
      | Some call =>
          {| reporter := reporter s; in_flight := in_flight s ++ [p_count call];
             sent := call :: sent s; accepted := accepted s |}
      | None => s
      end
  | Settled i outcome =>
      match in_flight s !! i with
      | Some approx =>
          {| reporter := reportPeak_end approx outcome (reporter s);
             in_flight := delete i (in_flight s);
             sent := sent s;
             accepted := if is_accepted outcome then approx :: accepted s else accepted s |}
      | None => s
      end
  end.

Definition run_from (s : Session) (events : list Event) : Session :=
  fold_left step events s.

Definition run (events : list Event) : Session := run_from started events.

(** The raw counts an event list brings. *)
Definition counts_of (events : list Event) : list Z :=
  omap (fun e => match e with
                 | Counted state => Some (ServerCrowdCounter.nearbyCount state)
                 | _ => None
                 end) events.

(** No call of [reportPeak] starts while another one waits for its answer:
    every remote call settles before the timer fires again. *)
Fixpoint sequential_from (s : Session) (events : list Event) : bool :=
  match events with
  | [] => true
  | e :: events =>
      match e with
      | Tick _ _ => bool_decide (in_flight s = [])
      | _ => true
      end && sequential_from (step s e) events
  end.

Definition sequential (events : list Event) : bool := sequential_from started events.

(** A notification of [n] devices nearby. *)
Definition counted (n : Z) : Event :=
  Counted {| ServerCrowdCounter.nearbyCount := n;
             ServerCrowdCounter.approximateCount := Approximation.approximateCount n;
             ServerCrowdCounter.isActive := true;
             ServerCrowdCounter.locationServicesOff := false;
             ServerCrowdCounter.error := None |}.

Lemma approximateCount_positive (raw : Z) :
  0 < Approximation.approximateCount raw -> 10 <= Approximation.approximateCount raw.
Proof.
  intros Hpos.
  destruct (Approximation.approximateCount_bounds raw) as (A0 & A1 & A2 & A3 & A4 & A5).
  assert (Hcase : raw <= 0 \/ 1 <= raw <= 10 \/ 11 <= raw <= 50 \/ 51 <= raw <= 200 \/
                  201 <= raw <= 500 \/ 500 < raw) by lia.
  destruct Hcase as [H | [H | [H | [H | [H | H]]]]];
    [pose proof (A0 H) | pose proof (A1 H) | pose proof (A2 H)
     | pose proof (A3 H) | pose proof (A4 H) | pose proof (A5 H)]; lia.
Qed.

Lemma reportPeak_begin_Some (city : option string) (today : string) (r : Reporter)
    (call : Report) :
  reportPeak_begin city today r = Some call ->
  p_count call = Approximation.approximateCount (peakRawCount r) /\
  p_date call = today /\ city = Some (p_city call) /\ p_city call <> "" /\
  10 <= p_count call /\ p_count call <> lastReportedPeak r.
Proof.
  unfold reportPeak_begin.
  destruct (Z.leb_spec (Approximation.approximateCount (peakRawCount r)) 0) as [Hz | Hz];
    cbn [orb]; [discriminate |].
  destruct (Z.eqb_spec (Approximation.approximateCount (peakRawCount r))
              (lastReportedPeak r)) as [He | He]; [discriminate |].
  destruct city as [[| a city] |]; try discriminate.
  intros [= <-]. cbn [p_count p_date p_city].
  repeat split; try assumption; try discriminate.
  now apply approximateCount_positive.
Qed.

(** *** What is sent *)




(** *** The peak *)

Lemma peak_fold (events : list Event) (s : Session) :
  peakRawCount (reporter (run_from s events)) =
    fold_left Z.max (counts_of events) (peakRawCount (reporter s)).
Proof.
  unfold run_from. revert s. induction events as [| e events IH]; intros s; [reflexivity |].
  cbn [fold_left]. rewrite IH. destruct e as [state | city today | i outcome].
  - change (counts_of (Counted state :: events))
      with (ServerCrowdCounter.nearbyCount state :: counts_of events).
    cbn [fold_left step reporter]. f_equal. unfold onState.
    destruct (Z.ltb_spec (peakRawCount (reporter s)) (ServerCrowdCounter.nearbyCount state));
      cbn [peakRawCount]; lia.
  - change (counts_of (Tick city today :: events)) with (counts_of events).
    f_equal. cbn [step]. now destruct (reportPeak_begin city today (reporter s)).
  - change (counts_of (Settled i outcome :: events)) with (counts_of events).
    f_equal. cbn [step]. destruct (in_flight s !! i); [| reflexivity].
    destruct outcome as [| [e |]]; reflexivity.
Qed.

(** The peak is the largest raw count notified since the start, and 0 when
    none was positive; neither the timer nor an answer changes it. *)
Theorem peak_is_max (events : list Event) :
  peakRawCount (reporter (run events)) = fold_left Z.max (counts_of events) 0.
Proof. unfold run. now rewrite peak_fold. Qed.

(** *** No value is recorded twice *)

(** The invariant of a sequential session: the last reported value bounds
    the accepted counts and is no more than the quantized peak, as is the
    value of the one call that may be waiting, which is above the last
    reported value; the accepted counts go strictly up with time. *)
Record invariant (s : Session) : Prop := {
  last_below :
    lastReportedPeak (reporter s) <= Approximation.approximateCount (peakRawCount (reporter s));
  one_in_flight :
    in_flight s = [] \/
    exists approx, in_flight s = [approx] /\ lastReportedPeak (reporter s) < approx /\
                   approx <= Approximation.approximateCount (peakRawCount (reporter s));
  accepted_below : Forall (fun n => n <= lastReportedPeak (reporter s)) (accepted s);
  accepted_sorted : StronglySorted (fun later earlier => earlier < later) (accepted s);
}.

Lemma invariant_started : invariant started.
Proof. split; cbn; try constructor; try lia. reflexivity. Qed.

Lemma invariant_step (s : Session) (e : Event) :
  invariant s ->
  match e with Tick _ _ => in_flight s = [] | _ => True end ->
  invariant (step s e).
Proof.
  intros [Hlast Hflight Hbelow Hsorted] Hseq.
  destruct e as [state | city today | i outcome]; cbn [step].
  - assert (Hup : Approximation.approximateCount (peakRawCount (reporter s)) <=
                  Approximation.approximateCount (peakRawCount (onState state (reporter s)))).
    { apply Approximation.approximateCount_le. unfold onState.
      destruct (Z.ltb_spec (peakRawCount (reporter s)) (ServerCrowdCounter.nearbyCount state));
        cbn [peakRawCount]; lia. }
    assert (Hsame : lastReportedPeak (onState state (reporter s)) = lastReportedPeak (reporter s)).
    { unfold onState.
      now destruct (peakRawCount (reporter s) <? ServerCrowdCounter.nearbyCount state). }
    split; cbn [reporter in_flight accepted]; rewrite ?Hsame; try assumption; [lia |].
    destruct Hflight as [Hnone | (approx & Hone & Habove & Hle)]; [now left |].
    right. exists approx. repeat split; [exact Hone | exact Habove | lia].
  - destruct (reportPeak_begin city today (reporter s)) as [call |] eqn:Hbegin;
      [| now split].
    apply reportPeak_begin_Some in Hbegin as (Hcount & _ & _ & _ & _ & Hnew).
    split; cbn [reporter in_flight accepted]; try assumption.
    right. exists (p_count call). rewrite Hseq. repeat split; lia.
  - destruct (in_flight s !! i) as [approx |] eqn:Hi; [| now split].
    destruct Hflight as [Hnone | (only & Hone & Habove & Hle)];
      [rewrite Hnone in Hi; discriminate |].
    rewrite Hone in Hi |- *. destruct i as [| i]; [| discriminate].
    injection Hi as <-.
    destruct outcome as [| [e |]]; cbn [reportPeak_end is_accepted];
      split; cbn [reporter in_flight accepted peakRawCount lastReportedPeak delete list_delete];
      try assumption; try lia; try (now left).
    + constructor; [lia |].
      eapply Forall_impl; [exact Hbelow |]. cbn. intros n Hn. lia.
    + constructor; [exact Hsorted |].
      eapply Forall_impl; [exact Hbelow |]. cbn. intros n Hn. lia.
Qed.

Lemma invariant_run_from (events : list Event) (s : Session) :
  invariant s -> sequential_from s events = true -> invariant (run_from s events).
Proof.
  unfold run_from. revert s.
  induction events as [| e events IH]; intros s Hs Hseq; [exact Hs |].
  cbn [fold_left sequential_from] in *. apply andb_prop in Hseq as [He Hseq].
  apply IH; [| exact Hseq]. apply invariant_step; [exact Hs |].
  destruct e; try exact I. now apply bool_decide_eq_true_1 in He.
Qed.

(** When every remote call settles before the timer fires again, the
    accepted reports of a session go strictly up: no value is recorded
    twice, and none after a higher one. *)
Theorem accepted_increasing (events : list Event) :
  sequential events = true ->
  StronglySorted (fun later earlier => earlier < later) (accepted (run events)).
Proof.
  intros Hseq. apply (invariant_run_from events started invariant_started Hseq).
Qed.

Lemma accepted_increasing_witness :
  StronglySorted (fun later earlier => earlier < later)
    (accepted (run [counted 7; Tick (Some "tehran") "2026-01-01"; counted 9;
                    Settled 0 (Resolves None); Tick (Some "tehran") "2026-01-01";
                    counted 32; Tick (Some "tehran") "2026-01-01";
                    Settled 0 (Resolves None)])).
Proof.
  apply (accepted_increasing
           [counted 7; Tick (Some "tehran") "2026-01-01"; counted 9;
            Settled 0 (Resolves None); Tick (Some "tehran") "2026-01-01";
            counted 32; Tick (Some "tehran") "2026-01-01";
            Settled 0 (Resolves None)]).
  vm_compute. reflexivity.
Defined.

(** Without that condition a value can be recorded twice: the timer fires
    again while the first call is still waiting, and both are accepted. *)
Lemma accepted_twice_when_overlapping :
  accepted (run [counted 7; Tick (Some "tehran") "2026-01-01";
                 Tick (Some "tehran") "2026-01-01";
                 Settled 0 (Resolves None); Settled 0 (Resolves None)]) = [10; 10].
Proof. vm_compute. reflexivity. Qed.

(** *** When nothing is sent *)

(** A timer that finds the quantized peak already reported, no count above
    zero, or no city, makes no remote call. *)
Theorem reportPeak_silent (city : option string) (today : string) (r : Reporter) :
  lastReportedPeak r = Approximation.approximateCount (peakRawCount r) \/
  city = None \/ city = Some "" \/ peakRawCount r <= 0 ->
  reportPeak_begin city today r = None.
Proof.
  intros Hsilent.
  destruct (reportPeak_begin city today r) as [call |] eqn:Hbegin; [| reflexivity].
  apply reportPeak_begin_Some in Hbegin as (Hcount & _ & Hcity & Hname & Hten & Hnew).
  exfalso. destruct Hsilent as [H | [H | [H | H]]]; try congruence.
  destruct (Approximation.approximateCount_bounds (peakRawCount r)) as (A0 & _).
  specialize (A0 H). lia.
Qed.

Lemma reportPeak_silent_witness :
  reportPeak_begin (Some "tehran") "2026-01-01"
                   {| peakRawCount := 9; lastReportedPeak := 10 |} = None.
Proof.
  apply (reportPeak_silent (Some "tehran") "2026-01-01"
           {| peakRawCount := 9; lastReportedPeak := 10 |}).
  left. reflexivity.
Defined.

End CrowdReporter.
